(** * OpenCut storage layer: cache adapter, remote projects adapter,
      storage service and media store

    A shallow embedding of
    - [apps/web/src/lib/storage/remote-projects-adapter.ts]
      ([RemoteProjectsAdapter], [CacheAdapter]),
    - [apps/web/src/lib/storage/storage-service.ts] ([StorageService]),
    - [apps/web/src/stores/media-store.ts] ([removeMediaFile],
      [clearProjectMedia]),
    - [lib/r2/upload.ts] ([generateMediaKey]).

    Asynchronous methods become computations of a state-and-exception monad
    [M] over a [World]: the outside world ([env]: the remote server and the
    wall clock), the two IndexedDB cache databases, the state of the media
    and timeline stores, and a [trace] of the effects performed, in order.

    The file has the types of the data, the interfaces of what surrounds
    the code (the outside world, the date conversions, the timeline store)
    with a model of each, the code itself ([Section Storage]), the worlds of
    the scenarios, the properties ([Section Properties], [Section Cascade])
    and the scenarios. *)

From stdpp Require Import base option list gmap strings.
From Stdlib Require Import ZArith.

Local Open Scope Z_scope.

(** ** JavaScript values *)

(** A thrown value: [new Error(message)], or the rejection of a [fetch] or of
    an IndexedDB request. *)
Inductive JsError : Type := MkError (message : string).

#[global] Instance JsError_eq_dec : EqDecision JsError.
Proof. solve_decision. Defined.

(** The outcome of an [await]ed computation. *)
Inductive Res (A : Type) : Type :=
| Ok (a : A)
| Throw (e : JsError).
Arguments Ok {A} a.
Arguments Throw {A} e.

(** A [Date]: a time value in milliseconds since the epoch, or
    [Invalid Date]. *)
Inductive Date : Type :=
| ValidDate (t : Z)
| InvalidDate.

(** ** Domain types *)

(** [Scene] of [@/types/project]. *)
Record Scene : Type := {
  scene_id : string;
  scene_name : string;
  scene_isMain : bool;
  scene_createdAt : Date;
  scene_updatedAt : Date;
}.

(** [SerializedScene] of [./types]: dates as ISO-8601 strings. *)
Record SerializedScene : Type := {
  sscene_id : string;
  sscene_name : string;
  sscene_isMain : bool;
  sscene_createdAt : string;
  sscene_updatedAt : string;
}.

Record CanvasSize : Type := { canvas_width : Z; canvas_height : Z }.

(** [TProject] of [@/types/project], with the fields [saveProject] reads.
    Optional fields are options. *)
Record TProject : Type := {
  p_id : string;
  p_name : string;
  p_thumbnail : string;
  p_createdAt : Date;
  p_updatedAt : Date;
  p_scenes : list Scene;
  p_currentSceneId : string;
  p_backgroundColor : option string;
  p_backgroundType : option string;
  p_blurIntensity : option Z;
  p_bookmarks : option (list Z);
  p_fps : option Z;
  p_canvasSize : CanvasSize;
  p_canvasMode : string;
}.

(** [SerializedProject] of [./types]. [sp_scenes] and [sp_currentSceneId]
    are optional on the wire ([scenes?.map], [currentSceneId || ""]). *)
Record SerializedProject : Type := {
  sp_id : string;
  sp_name : string;
  sp_thumbnail : string;
  sp_createdAt : string;
  sp_updatedAt : string;
  sp_scenes : option (list SerializedScene);
  sp_currentSceneId : option string;
  sp_backgroundColor : option string;
  sp_backgroundType : option string;
  sp_blurIntensity : option Z;
  sp_bookmarks : option (list Z);
  sp_fps : option Z;
  sp_canvasSize : CanvasSize;
  sp_canvasMode : string;
}.

(** [MediaFileData] of [./types]: the metadata kept in the media cache. *)
Record MediaFileData : Type := {
  md_id : string;
  md_name : string;
  md_type : string;
  md_url : option string;
  md_width : option Z;
  md_height : option Z;
  md_duration : option Z;
  md_ephemeral : option bool;
  md_sourceStickerIconName : option string;
}.

(** A [File] object: [new File([], name)] has no content. *)
Record File : Type := { file_parts : list string; file_name : string }.

(** [MediaFile] of [@/types/media]. *)
Record MediaFile : Type := {
  m_id : string;
  m_name : string;
  m_type : string;
  m_url : option string;
  m_file : File;
  m_width : option Z;
  m_height : option Z;
  m_duration : option Z;
  m_ephemeral : option bool;
  m_sourceStickerIconName : option string;
}.

(** Fields every timeline element has besides its id. *)
Record ElementBase : Type := {
  el_name : string;
  el_startTime : Z;
  el_duration : Z;
}.

(** [TimelineElement] of [@/types/timeline]: a union discriminated by
    [type]; only the ["media"] kind has a [mediaId]. *)
Inductive TimelineElement : Type :=
| MediaElement (id : string) (mediaId : string) (base : ElementBase)
| TextElement (id : string) (content : string) (base : ElementBase).

Definition el_id (el : TimelineElement) : string :=
  match el with
  | MediaElement id _ _ => id
  | TextElement id _ _ => id
  end.

Definition el_type (el : TimelineElement) : string :=
  match el with
  | MediaElement _ _ _ => "media"
  | TextElement _ _ _ => "text"
  end.

(** [el.mediaId]: [undefined] on an element that has no such field. *)
Definition el_mediaId (el : TimelineElement) : option string :=
  match el with
  | MediaElement _ mediaId _ => Some mediaId
  | TextElement _ _ _ => None
  end.

(** [TimelineTrack] of [@/types/timeline]. *)
Record TimelineTrack : Type := {
  track_id : string;
  track_name : string;
  track_elements : list TimelineElement;
}.

(** An entry of the timeline's selection: [{ trackId, elementId }]. *)
Record SelectedElement : Type := { sel_trackId : string; sel_elementId : string }.

#[global] Instance Date_eq_dec : EqDecision Date.
Proof. solve_decision. Defined.
#[global] Instance ElementBase_eq_dec : EqDecision ElementBase.
Proof. solve_decision. Defined.
#[global] Instance TimelineElement_eq_dec : EqDecision TimelineElement.
Proof. solve_decision. Defined.
#[global] Instance SelectedElement_eq_dec : EqDecision SelectedElement.
Proof. solve_decision. Defined.

(** ** HTTP *)

Inductive Method : Type := GET | POST | PUT | DELETE.

#[global] Instance Method_eq_dec : EqDecision Method.
Proof. solve_decision. Defined.

(** The body of a request: none, or [JSON.stringify] of a project or of
    [{ sceneId, tracks }]. *)
Inductive RequestBody : Type :=
| NoBody
| ProjectBody (value : SerializedProject)
| TimelineBody (sceneId : string) (tracks : list TimelineTrack).

Record Request : Type := {
  req_method : Method;
  req_url : string;
  req_body : RequestBody;
}.

(** What [response.json()] yields, with the fields the client reads. *)
Record Payload : Type := {
  json_project : option SerializedProject;
  json_media : option (list MediaFileData);
  json_tracks : option (list TimelineTrack);
}.

(** A [Response]. [resp_json = None]: the body is not JSON and
    [response.json()] rejects. *)
Record Response : Type := {
  resp_status : Z;
  resp_statusText : string;
  resp_json : option Payload;
}.

(** [response.ok]: the status is in the range 200-299. *)
Definition resp_ok (r : Response) : bool :=
  (200 <=? resp_status r) && (resp_status r <=? 299).

(** A settled [fetch]: rejected (network failure) or fulfilled with a
    response. *)
Definition FetchResult : Type := JsError + Response.

(** ** Cache entries *)

(** [CacheEntry<T>]. *)
Record CacheEntry (T : Type) : Type := {
  data : T;
  timestamp : Z;
  version : Z;
}.
Arguments data {T} _.
Arguments timestamp {T} _.
Arguments version {T} _.

(** The cache databases the storage service opens: [cache-media] and
    [cache-timelines], each holding entries of its own type. *)
Inductive StoreName : Type -> Type :=
| MediaStore : StoreName (list MediaFileData)
| TimelinesStore : StoreName (list TimelineTrack).

(** ** Effects *)

(** The effects a computation performs, as recorded in the trace. *)
Inductive Event : Type :=
| EvFetch (r : Request)
| EvConsoleError (msg : string)
| EvClearVideo (id : string)
| EvSetMediaFiles
| EvSetSelectedElements (sel : list SelectedElement)
| EvDeleteSelected.

Definition fetch_of (ev : Event) : option Request :=
  match ev with
  | EvFetch r => Some r
  | _ => None
  end.

(** ** The surroundings *)

(** The outside world: the remote server behind [fetch] and the wall clock
    behind [Date.now()]. [fetch_env r e] is how the world in state [e]
    settles the request [r], and the state it is in afterwards. *)
Class Outside (Env : Type) : Type := {
  fetch_env : Request -> Env -> FetchResult * Env;
  Date_now : Env -> Z;
}.

(** [Date.prototype.toISOString] on a valid time value, and [new Date(s)]. *)
Class DateCodec : Type := {
  iso_format : Z -> string;
  Date_parse : string -> Date;
}.

(** The timeline store ([useTimelineStore], [./timeline-store]): its state
    and the three members [removeMediaFile] takes from it. *)
Class TimelineApi (Timeline : Type) : Type := {
  tl_tracks : Timeline -> list TimelineTrack;
  tl_setSelectedElements : list SelectedElement -> Timeline -> Timeline;
  tl_deleteSelected : Timeline -> Timeline;
}.

(** * Models of the surroundings *)

(** ** The timeline store *)

(** The state of [useTimelineStore] that [removeMediaFile] touches. *)
Record TimelineStore : Type := {
  tracks : list TimelineTrack;
  selectedElements : list SelectedElement;
}.

Definition setSelectedElements (sel : list SelectedElement)
    (s : TimelineStore) : TimelineStore :=
  {| tracks := tracks s; selectedElements := sel |}.

(** Modelled from the spec: [./timeline-store] ([deleteSelected]) is not
    among the sources. The spec's unified multi-element deletion: the
    selected elements, each named by its track's id and its own id, are
    removed from their tracks; nothing else changes. *)
Definition deleteSelected (s : TimelineStore) : TimelineStore :=
  {| tracks :=
       map (fun track =>
              {| track_id := track_id track; track_name := track_name track;
                 track_elements :=
                   filter (fun el =>
                             {| sel_trackId := track_id track;
                                sel_elementId := el_id el |}
                               ∉ selectedElements s)
                          (track_elements track) |})
           (tracks s);
     selectedElements := selectedElements s |}.

Definition key_of (track : TimelineTrack) (el : TimelineElement)
    : SelectedElement :=
  {| sel_trackId := track_id track; sel_elementId := el_id el |}.

(** The names by which the selection refers to the elements of the
    tracks: for each element, its track's id and its own id. *)
Definition element_keys (ts : list TimelineTrack) : list SelectedElement :=
  flat_map
    (fun track => map (key_of track) (track_elements track))
    ts.

(** A track without the elements that reference media [M]. *)
Definition without_media (M : string) (track : TimelineTrack) : TimelineTrack :=
  {| track_id := track_id track; track_name := track_name track;
     track_elements :=
       filter (fun el => el_mediaId el ≠ Some M) (track_elements track) |}.

Definition all_elements (ts : list TimelineTrack) : list TimelineElement :=
  flat_map track_elements ts.

(** The names of the elements that reference media [M], and of those that
    do not. *)
Definition media_keys (M : string) (ts : list TimelineTrack)
    : list SelectedElement :=
  flat_map
    (fun track =>
       map (key_of track)
           (filter (fun el => el_mediaId el = Some M) (track_elements track)))
    ts.

Definition other_keys (M : string) (ts : list TimelineTrack)
    : list SelectedElement :=
  flat_map
    (fun track =>
       map (key_of track)
           (filter (fun el => el_mediaId el ≠ Some M) (track_elements track)))
    ts.

(** No element that does not reference [M] has the track id and the
    element id of one that does. *)
Definition no_shared_name (M : string) (ts : list TimelineTrack) : Prop :=
  Forall (fun k => k ∉ media_keys M ts) (other_keys M ts).

#[global] Instance TimelineStore_api : TimelineApi TimelineStore :=
  {| tl_tracks := tracks;
     tl_setSelectedElements := setSelectedElements;
     tl_deleteSelected := deleteSelected |}.

(** ** A scripted outside world *)

(** A world that answers the requests it receives from a script, in order:
    each answer comes after a delay, which moves the clock. With the script
    used up, a [fetch] fails. *)
Record Script : Type := {
  script_now : Z;
  script_answers : list (Z * FetchResult);
}.

Definition script_fetch (r : Request) (e : Script) : FetchResult * Script :=
  match script_answers e with
  | [] => (inl (MkError "TypeError: Failed to fetch"), e)
  | (delay, res) :: rest =>
      (res, {| script_now := script_now e + delay; script_answers := rest |})
  end.

#[global] Instance Script_outside : Outside Script :=
  {| fetch_env := script_fetch; Date_now := script_now |}.

(** ** An in-memory project server *)

(** A remote that keeps the projects it is sent, by id, and answers the
    requests of the projects adapter from what it keeps. *)
Record ProjectServer : Type := {
  server_now : Z;
  server_projects : gmap string SerializedProject;
}.

(** [s] without its prefix [p], if it starts with [p]. *)
Fixpoint strip_prefix (p s : string) : option string :=
  match p with
  | EmptyString => Some s
  | String a p' =>
      match s with
      | String b s' => if decide (a = b) then strip_prefix p' s' else None
      | EmptyString => None
      end
  end.

Definition json_response (status : Z) (text : string)
    (project : option SerializedProject) : FetchResult :=
  inr {| resp_status := status; resp_statusText := text;
         resp_json := Some {| json_project := project; json_media := None;
                              json_tracks := None |} |}.

Definition server_fetch (r : Request) (e : ProjectServer)
    : FetchResult * ProjectServer :=
  let not_found := (json_response 404 "Not Found" None, e) in
  let stored id value :=
    (json_response 200 "OK" (Some value),
     {| server_now := server_now e;
        server_projects := <[id := value]> (server_projects e) |}) in
  match req_method r, req_body r with
  | GET, _ =>
      match strip_prefix "/api/projects/" (req_url r) with
      | Some id =>
          match server_projects e !! id with
          | Some value => (json_response 200 "OK" (Some value), e)
          | None => not_found
          end
      | None => not_found
      end
  | POST, ProjectBody value =>
      if decide (req_url r = "/api/projects") then stored (sp_id value) value
      else not_found
  | PUT, ProjectBody value =>
      match strip_prefix "/api/projects/" (req_url r) with
      | Some id =>
          match server_projects e !! id with
          | Some _ => stored id value
          | None => not_found
          end
      | None => not_found
      end
  | DELETE, _ =>
      match strip_prefix "/api/projects/" (req_url r) with
      | Some id =>
          match server_projects e !! id with
          | Some _ =>
              (json_response 200 "OK" None,
               {| server_now := server_now e;
                  server_projects := delete id (server_projects e) |})
          | None => not_found
          end
      | None => not_found
      end
  | _, _ => (json_response 400 "Bad Request" None, e)
  end.

#[global] Instance ProjectServer_outside : Outside ProjectServer :=
  {| fetch_env := server_fetch; Date_now := server_now |}.

(** ** ISO-8601 date strings *)

(** [toISOString] and the reading of its strings by [new Date]:
    [YYYY-MM-DDTHH:mm:ss.sssZ] for the years 0000 to 9999, and the year as
    a sign and six digits outside them. A date holds a time of at most
    8.64e15 ms on either side of the epoch. *)
Definition digit (d : Z) : string :=
  String (Ascii.ascii_of_nat (48 + Z.to_nat d)) EmptyString.

Fixpoint pad (width : nat) (z : Z) : string :=
  match width with
  | O => EmptyString
  | S n => pad n (z / 10) +:+ digit (z mod 10)
  end.

(** Year, month and day of a day number counted from 1970-01-01. *)
Definition civil_from_days (days : Z) : Z * Z * Z :=
  let z := days + 719468 in
  let era := z / 146097 in
  let doe := z - era * 146097 in
  let yoe := (doe - doe / 1460 + doe / 36524 - doe / 146096) / 365 in
  let doy := doe - (365 * yoe + yoe / 4 - yoe / 100) in
  let mp := (5 * doy + 2) / 153 in
  let d := doy - (153 * mp + 2) / 5 + 1 in
  let m := if mp <? 10 then mp + 3 else mp - 9 in
  let y := yoe + era * 400 in
  (if m <=? 2 then y + 1 else y, m, d).

Definition days_from_civil (y m d : Z) : Z :=
  let y := if m <=? 2 then y - 1 else y in
  let era := y / 400 in
  let yoe := y - era * 400 in
  let doy := (153 * (if 2 <? m then m - 3 else m + 9) + 2) / 5 + d - 1 in
  let doe := yoe * 365 + yoe / 4 - yoe / 100 + doy in
  era * 146097 + doe - 719468.

Definition max_time : Z := 8640000000000000.

Definition year_string (y : Z) : string :=
  if (0 <=? y) && (y <=? 9999) then pad 4 y
  else if y <? 0 then "-" +:+ pad 6 (- y)
  else "+" +:+ pad 6 y.

Definition iso_string (t : Z) : string :=
  let '(y, m, d) := civil_from_days (t / 86400000) in
  let ms := t mod 86400000 in
  year_string y +:+ "-" +:+ pad 2 m +:+ "-" +:+ pad 2 d +:+ "T"
    +:+ pad 2 (ms / 3600000) +:+ ":" +:+ pad 2 (ms / 60000 mod 60) +:+ ":"
    +:+ pad 2 (ms / 1000 mod 60) +:+ "." +:+ pad 3 (ms mod 1000) +:+ "Z".

Fixpoint digits_value (s : string) (acc : Z) : option Z :=
  match s with
  | EmptyString => Some acc
  | String c s' =>
      let n := Z.of_nat (Ascii.nat_of_ascii c) in
      if (48 <=? n) && (n <=? 57) then digits_value s' (10 * acc + (n - 48))
      else None
  end.

Definition field (start len : nat) (s : string) : option Z :=
  digits_value (String.substring start len s) 0.

(** The year of a date-time string and what follows it: four digits, or a
    sign and six digits, [-000000] excepted. *)
Definition parse_year (s : string) : option (Z * string) :=
  let rest (n : nat) := String.substring n (String.length s - n)%nat s in
  if bool_decide (String.substring 0 1 s = "+") then
    y ← field 1 6 s; Some (y, rest 7%nat)
  else if bool_decide (String.substring 0 1 s = "-") then
    y ← field 1 6 s; if y =? 0 then None else Some (- y, rest 7%nat)
  else
    y ← field 0 4 s; Some (y, rest 4%nat).

(** [-MM-DDTHH:mm:ss.sssZ] with each field in its range. The day may be
    any of 1 to 31 and runs into the next month where the month is
    shorter, as V8 reads it; 24 is an hour only in [24:00:00.000]. *)
Definition parse_rest (y : Z) (s : string) : Date :=
  if bool_decide (String.length s = 20%nat
                  ∧ String.substring 0 1 s = "-"
                  ∧ String.substring 3 1 s = "-"
                  ∧ String.substring 6 1 s = "T"
                  ∧ String.substring 9 1 s = ":"
                  ∧ String.substring 12 1 s = ":"
                  ∧ String.substring 15 1 s = "."
                  ∧ String.substring 19 1 s = "Z") then
    match field 1 2 s, field 4 2 s, field 7 2 s, field 10 2 s,
          field 13 2 s, field 16 3 s with
    | Some m, Some d, Some hh, Some mm, Some ss, Some ms =>
        let t := days_from_civil y m d * 86400000 + hh * 3600000
                 + mm * 60000 + ss * 1000 + ms in
        if (1 <=? m) && (m <=? 12) && (1 <=? d) && (d <=? 31)
           && ((hh <=? 23) || (hh =? 24) && (mm =? 0) && (ss =? 0) && (ms =? 0))
           && (mm <=? 59) && (ss <=? 59)
           && (- max_time <=? t) && (t <=? max_time)
        then ValidDate t
        else InvalidDate
    | _, _, _, _, _, _ => InvalidDate
    end
  else InvalidDate.

(** [new Date(s)] on the strings [toISOString] writes, and on the others
    of that shape. The shorter forms of the date-time format, the forms in
    local time and the formats of the engines are not modelled: they are
    read as [Invalid Date] here. *)
Definition parse_iso (s : string) : Date :=
  match parse_year s with
  | Some (y, rest) => parse_rest y rest
  | None => InvalidDate
  end.

Definition iso_codec : DateCodec :=
  {| iso_format := iso_string; Date_parse := parse_iso |}.

(** * The code *)

Section Storage.

Context {Env : Type} {outside : Outside Env} {codec : DateCodec}
  {Timeline : Type} {api : TimelineApi Timeline}.

(** ** The world *)

Record World : Type := {
  env : Env;
  (** Whether each of the coming IndexedDB requests fails ([true]); none
      fails once the list is used up. *)
  idb_faults : list bool;
  (** The object stores of the databases [cache-media] and
      [cache-timelines]. *)
  db_media : gmap string (CacheEntry (list MediaFileData));
  db_timelines : gmap string (CacheEntry (list TimelineTrack));
  (** [useMediaStore]'s [mediaFiles] and the state of the timeline store. *)
  mediaFiles : list MediaFile;
  timeline : Timeline;
  trace : list Event;
}.

Definition set_env (e : Env) (w : World) : World :=
  {| env := e; idb_faults := idb_faults w; db_media := db_media w;
     db_timelines := db_timelines w; mediaFiles := mediaFiles w;
     timeline := timeline w; trace := trace w |}.

Definition set_faults (fs : list bool) (w : World) : World :=
  {| env := env w; idb_faults := fs; db_media := db_media w;
     db_timelines := db_timelines w; mediaFiles := mediaFiles w;
     timeline := timeline w; trace := trace w |}.

Definition set_mediaFiles (ms : list MediaFile) (w : World) : World :=
  {| env := env w; idb_faults := idb_faults w; db_media := db_media w;
     db_timelines := db_timelines w; mediaFiles := ms;
     timeline := timeline w; trace := trace w |}.

Definition set_timeline (tl : Timeline) (w : World) : World :=
  {| env := env w; idb_faults := idb_faults w; db_media := db_media w;
     db_timelines := db_timelines w; mediaFiles := mediaFiles w;
     timeline := tl; trace := trace w |}.

Definition add_event (ev : Event) (w : World) : World :=
  {| env := env w; idb_faults := idb_faults w; db_media := db_media w;
     db_timelines := db_timelines w; mediaFiles := mediaFiles w;
     timeline := timeline w; trace := trace w ++ [ev] |}.

(** The object store of a cache database. *)
Definition db {T} (s : StoreName T) (w : World) : gmap string (CacheEntry T) :=
  match s in StoreName T return gmap string (CacheEntry T) with
  | MediaStore => db_media w
  | TimelinesStore => db_timelines w
  end.

Definition set_db {T} (s : StoreName T) (m : gmap string (CacheEntry T))
    (w : World) : World :=
  match s in StoreName T return gmap string (CacheEntry T) -> World with
  | MediaStore => fun m =>
      {| env := env w; idb_faults := idb_faults w; db_media := m;
         db_timelines := db_timelines w; mediaFiles := mediaFiles w;
         timeline := timeline w; trace := trace w |}
  | TimelinesStore => fun m =>
      {| env := env w; idb_faults := idb_faults w; db_media := db_media w;
         db_timelines := m; mediaFiles := mediaFiles w;
         timeline := timeline w; trace := trace w |}
  end m.

(** The requests sent so far, oldest first. *)
Definition requests (w : World) : list Request := omap fetch_of (trace w).

(** ** The monad of asynchronous computations *)

Definition M (A : Type) : Type := World -> Res A * World.

#[global] Instance M_ret : MRet M := fun A (a : A) w => (Ok a, w).

#[global] Instance M_bind : MBind M := fun A B (f : A -> M B) (m : M A) w =>
  match m w with
  | (Ok a, w') => f a w'
  | (Throw e, w') => (Throw e, w')
  end.

Definition throw {A} (e : JsError) : M A := fun w => (Throw e, w).

(** [try { m } catch (error) { h error }]. *)
Definition try_catch {A} (m : M A) (h : JsError -> M A) : M A := fun w =>
  match m w with
  | (Ok a, w') => (Ok a, w')
  | (Throw e, w') => h e w'
  end.

Definition gets {A} (f : World -> A) : M A := fun w => (Ok (f w), w).

Definition modify (f : World -> World) : M unit := fun w => (Ok tt, f w).

Definition emit (ev : Event) : M unit := modify (add_event ev).

Definition console_error (msg : string) : M unit := emit (EvConsoleError msg).

(** [Date.now()]. *)
Definition now : M Z := gets (fun w => Date_now (env w)).

(** [fetch(r)]: the request is sent and the promise settles. *)
Definition fetch (r : Request) : M FetchResult := fun w =>
  let '(res, e') := fetch_env r (env w) in
  (Ok res, add_event (EvFetch r) (set_env e' w)).

(** [await] of a settled [fetch]. *)
Definition await_response (res : FetchResult) : M Response :=
  match res with
  | inl e => throw e
  | inr response => mret response
  end.

(** [await response.json()]. *)
Definition response_json (response : Response) : M Payload :=
  match resp_json response with
  | Some payload => mret payload
  | None => throw (MkError "SyntaxError: Unexpected token in JSON")
  end.

(** ** The IndexedDB adapter *)

Definition idb_error : JsError := MkError "IndexedDB request failed".

(** Modelled from the spec: [./indexeddb-adapter] ([IndexedDBAdapter]) is
    not among the sources. The spec's persistent key-value store: a mapping
    from string keys to values, per named store, with get, set, remove and
    clear; a request may fail, and then changes nothing. *)
Definition idb_request {A} (op : World -> A * World) : M A := fun w =>
  match idb_faults w with
  | true :: fs => (Throw idb_error, set_faults fs w)
  | false :: fs => let '(a, w') := op (set_faults fs w) in (Ok a, w')
  | [] => let '(a, w') := op w in (Ok a, w')
  end.

Definition idb_get {T} (s : StoreName T) (key : string)
    : M (option (CacheEntry T)) :=
  idb_request (fun w => (db s w !! key, w)).

Definition idb_set {T} (s : StoreName T) (key : string) (entry : CacheEntry T)
    : M unit :=
  idb_request (fun w => (tt, set_db s (<[key := entry]> (db s w)) w)).

Definition idb_remove {T} (s : StoreName T) (key : string) : M unit :=
  idb_request (fun w => (tt, set_db s (delete key (db s w)) w)).

Definition idb_clear {T} (s : StoreName T) : M unit :=
  idb_request (fun w => (tt, set_db s ∅ w)).

(** ** [CacheAdapter<T>] *)

Record CacheAdapter (T : Type) : Type := {
  idbAdapter : StoreName T;
  ttl : Z;
}.
Arguments idbAdapter {T} _.
Arguments ttl {T} _.

(** [CacheAdapter.get]. *)
Definition cache_get {T} (c : CacheAdapter T) (key : string) : M (option T) :=
  try_catch
    (entry ← idb_get (idbAdapter c) key;
     match entry with
     | None => mret None
     | Some entry =>
         t ← now;
         if t - timestamp entry >? ttl c then
           idb_remove (idbAdapter c) key;; mret None
         else mret (Some (data entry))
     end)
    (fun error =>
       console_error ("Cache get error for key " +:+ key +:+ ":");;
       mret None).

(** [CacheAdapter.set]. *)
Definition cache_set {T} (c : CacheAdapter T) (key : string) (d : T)
    (ver : Z) : M unit :=
  try_catch
    (t ← now;
     let entry := {| data := d; timestamp := t; version := ver |} in
     idb_set (idbAdapter c) key entry)
    (fun error =>
       console_error ("Cache set error for key " +:+ key +:+ ":");;
       throw error).

(** [CacheAdapter.invalidate]. *)
Definition cache_invalidate {T} (c : CacheAdapter T) (key : string) : M unit :=
  try_catch
    (idb_remove (idbAdapter c) key)
    (fun error =>
       console_error ("Cache invalidate error for key " +:+ key +:+ ":")).

(** [CacheAdapter.clear]. *)
Definition cache_clear {T} (c : CacheAdapter T) : M unit :=
  try_catch
    (idb_clear (idbAdapter c))
    (fun error => console_error "Cache clear error:";; throw error).

(** [CacheAdapter.getWithMetadata]. *)
Definition cache_getWithMetadata {T} (c : CacheAdapter T) (key : string)
    : M (option (CacheEntry T)) :=
  try_catch
    (entry ← idb_get (idbAdapter c) key;
     match entry with
     | None => mret None
     | Some entry =>
         t ← now;
         if t - timestamp entry >? ttl c then
           idb_remove (idbAdapter c) key;; mret None
         else mret (Some entry)
     end)
    (fun error =>
       console_error ("Cache getWithMetadata error for key " +:+ key +:+ ":");;
       mret None).

(** [CacheAdapter.has]. *)
Definition cache_has {T} (c : CacheAdapter T) (key : string) : M bool :=
  d ← cache_get c key;
  mret (bool_decide (is_Some d)).

(** [CacheAdapter.getRemainingTTL]. *)
Definition cache_getRemainingTTL {T} (c : CacheAdapter T) (key : string)
    : M Z :=
  try_catch
    (entry ← idb_get (idbAdapter c) key;
     match entry with
     | None => mret (-1)
     | Some entry =>
         t ← now;
         let age := t - timestamp entry in
         let remaining := ttl c - age in
         mret (if remaining >? 0 then remaining else -1)
     end)
    (fun error =>
       console_error ("getRemainingTTL error for key " +:+ key +:+ ":");;
       mret (-1)).

(** ** [RemoteProjectsAdapter] *)

Record RemoteProjectsAdapter : Type := { baseUrl : string }.

Definition get_request (a : RemoteProjectsAdapter) (id : string) : Request :=
  {| req_method := GET; req_url := baseUrl a +:+ "/" +:+ id;
     req_body := NoBody |}.

Definition put_request (a : RemoteProjectsAdapter) (id : string)
    (value : SerializedProject) : Request :=
  {| req_method := PUT; req_url := baseUrl a +:+ "/" +:+ id;
     req_body := ProjectBody value |}.

Definition post_request (a : RemoteProjectsAdapter)
    (value : SerializedProject) : Request :=
  {| req_method := POST; req_url := baseUrl a; req_body := ProjectBody value |}.

Definition delete_request (a : RemoteProjectsAdapter) (id : string) : Request :=
  {| req_method := DELETE; req_url := baseUrl a +:+ "/" +:+ id;
     req_body := NoBody |}.

(** [RemoteProjectsAdapter.get]. *)
Definition remote_get (a : RemoteProjectsAdapter) (id : string)
    : M (option SerializedProject) :=
  try_catch
    (res ← fetch (get_request a id);
     response ← await_response res;
     if bool_decide (resp_status response = 404) then mret None
     else if negb (resp_ok response) then
       throw (MkError ("Failed to fetch project: " +:+ resp_statusText response))
     else
       d ← response_json response;
       mret (json_project d))
    (fun error => console_error "Failed to get project:";; throw error).

(** [RemoteProjectsAdapter.set]. *)
Definition remote_set (a : RemoteProjectsAdapter) (id : string)
    (value : SerializedProject) : M unit :=
  try_catch
    (existingProject ← remote_get a id;
     match existingProject with
     | Some _ =>
         res ← fetch (put_request a id value);
         response ← await_response res;
         if negb (resp_ok response) then
           throw (MkError
                    ("Failed to update project: " +:+ resp_statusText response))
         else mret tt
     | None =>
         res ← fetch (post_request a value);
         response ← await_response res;
         if negb (resp_ok response) then
           throw (MkError
                    ("Failed to create project: " +:+ resp_statusText response))
         else mret tt
     end)
    (fun error => console_error "Failed to save project:";; throw error).

(** [RemoteProjectsAdapter.remove]. *)
Definition remote_remove (a : RemoteProjectsAdapter) (id : string) : M unit :=
  try_catch
    (res ← fetch (delete_request a id);
     response ← await_response res;
     if negb (resp_ok response)
        && negb (bool_decide (resp_status response = 404)) then
       throw (MkError ("Failed to delete project: " +:+ resp_statusText response))
     else mret tt)
    (fun error => console_error "Failed to delete project:";; throw error).

(** ** [StorageService] *)

(** The adapters its constructor creates. *)
Definition projectsAdapter : RemoteProjectsAdapter :=
  {| baseUrl := "/api/projects" |}.

Definition mediaCache : CacheAdapter (list MediaFileData) :=
  {| idbAdapter := MediaStore; ttl := 300000 |}.

Definition timelinesCache : CacheAdapter (list TimelineTrack) :=
  {| idbAdapter := TimelinesStore; ttl := 60000 |}.

(** [date.toISOString()]: a [RangeError] on [Invalid Date]. *)
Definition toISOString (d : Date) : M string :=
  match d with
  | ValidDate t => mret (iso_format t)
  | InvalidDate => throw (MkError "RangeError: Invalid time value")
  end.

Definition serialize_scene (scene : Scene) : M SerializedScene :=
  createdAt ← toISOString (scene_createdAt scene);
  updatedAt ← toISOString (scene_updatedAt scene);
  mret {| sscene_id := scene_id scene; sscene_name := scene_name scene;
          sscene_isMain := scene_isMain scene;
          sscene_createdAt := createdAt; sscene_updatedAt := updatedAt |}.

Definition deserialize_scene (scene : SerializedScene) : Scene :=
  {| scene_id := sscene_id scene; scene_name := sscene_name scene;
     scene_isMain := sscene_isMain scene;
     scene_createdAt := Date_parse (sscene_createdAt scene);
     scene_updatedAt := Date_parse (sscene_updatedAt scene) |}.

(** The conversion [saveProject] makes before it calls the adapter. *)
Definition serialize_project (project : TProject) : M SerializedProject :=
  serializedScenes ← mapM serialize_scene (p_scenes project);
  createdAt ← toISOString (p_createdAt project);
  updatedAt ← toISOString (p_updatedAt project);
  mret {| sp_id := p_id project; sp_name := p_name project;
          sp_thumbnail := p_thumbnail project;
          sp_createdAt := createdAt; sp_updatedAt := updatedAt;
          sp_scenes := Some serializedScenes;
          sp_currentSceneId := Some (p_currentSceneId project);
          sp_backgroundColor := p_backgroundColor project;
          sp_backgroundType := p_backgroundType project;
          sp_blurIntensity := p_blurIntensity project;
          sp_bookmarks := p_bookmarks project;
          sp_fps := p_fps project;
          sp_canvasSize := p_canvasSize project;
          sp_canvasMode := p_canvasMode project |}.

(** [StorageService.saveProject]. *)
Definition saveProject (project : TProject) : M unit :=
  serializedProject ← serialize_project project;
  remote_set projectsAdapter (p_id project) serializedProject.

(** The conversion [loadProject] makes of what the adapter returned. *)
Definition deserialize_project (serializedProject : SerializedProject)
    : TProject :=
  let scenes :=
    default [] (map deserialize_scene <$> sp_scenes serializedProject) in
  {| p_id := sp_id serializedProject; p_name := sp_name serializedProject;
     p_thumbnail := sp_thumbnail serializedProject;
     p_createdAt := Date_parse (sp_createdAt serializedProject);
     p_updatedAt := Date_parse (sp_updatedAt serializedProject);
     p_scenes := scenes;
     p_currentSceneId := default "" (sp_currentSceneId serializedProject);
     p_backgroundColor := sp_backgroundColor serializedProject;
     p_backgroundType := sp_backgroundType serializedProject;
     p_blurIntensity := sp_blurIntensity serializedProject;
     p_bookmarks := sp_bookmarks serializedProject;
     p_fps := sp_fps serializedProject;
     p_canvasSize := sp_canvasSize serializedProject;
     p_canvasMode := sp_canvasMode serializedProject |}.

(** [StorageService.loadProject]. *)
Definition loadProject (id : string) : M (option TProject) :=
  serializedProject ← remote_get projectsAdapter id;
  match serializedProject with
  | None => mret None
  | Some serializedProject => mret (Some (deserialize_project serializedProject))
  end.

(** [StorageService.deleteProject]. *)
Definition deleteProject (id : string) : M unit :=
  remote_remove projectsAdapter id.

Definition media_file_of (metadata : MediaFileData) : MediaFile :=
  {| m_id := md_id metadata; m_name := md_name metadata;
     m_type := md_type metadata; m_url := md_url metadata;
     m_file := {| file_parts := []; file_name := md_name metadata |};
     m_width := md_width metadata; m_height := md_height metadata;
     m_duration := md_duration metadata; m_ephemeral := md_ephemeral metadata;
     m_sourceStickerIconName := md_sourceStickerIconName metadata |}.

Definition list_media_request (projectId : string) : Request :=
  {| req_method := GET; req_url := "/api/media?projectId=" +:+ projectId;
     req_body := NoBody |}.

(** [StorageService.loadAllMediaFiles]. *)
Definition loadAllMediaFiles (projectId : string) : M (list MediaFile) :=
  cachedMetadata ← cache_get mediaCache projectId;
  cachedMetadata ←
    match cachedMetadata with
    | Some cachedMetadata => mret cachedMetadata
    | None =>
        res ← fetch (list_media_request projectId);
        response ← await_response res;
        if negb (resp_ok response) then
          throw (MkError ("Failed to load media: " +:+ resp_statusText response))
        else
          d ← response_json response;
          let cachedMetadata := default [] (json_media d) in
          (if (0 <? length cachedMetadata)%nat then
             cache_set mediaCache projectId cachedMetadata 1
           else mret tt);;
          mret cachedMetadata
    end;
  mret (map media_file_of cachedMetadata).

Definition delete_media_request (id : string) : Request :=
  {| req_method := DELETE; req_url := "/api/media/" +:+ id;
     req_body := NoBody |}.

(** [StorageService.deleteMediaFile], from the point where the [fetch] it
    awaits has settled. *)
Definition deleteMediaFile_resume (projectId : string) (res : FetchResult)
    : M unit :=
  response ← await_response res;
  if negb (resp_ok response)
     && negb (bool_decide (resp_status response = 404)) then
    throw (MkError ("Failed to delete media: " +:+ resp_statusText response))
  else cache_invalidate mediaCache projectId.

(** [StorageService.deleteMediaFile]. *)
Definition deleteMediaFile (projectId id : string) : M unit :=
  res ← fetch (delete_media_request id);
  deleteMediaFile_resume projectId res.

(** A promise run to its end, its outcome kept rather than propagated. *)
Definition settle {A} (m : M A) : M (Res A) := fun w =>
  let '(r, w') := m w in (Ok r, w').

(** The reason [Promise.all] rejects with: that of the promise that
    rejected first. *)
Fixpoint first_rejection {A} (settled : list (Res A)) : option JsError :=
  match settled with
  | [] => None
  | Ok _ :: rest => first_rejection rest
  | Throw e :: _ => Some e
  end.

(** The error [deleteMediaFile] throws once its [fetch] has settled with
    [res], if it throws. *)
Definition rejection (res : FetchResult) : option JsError :=
  match res with
  | inl error => Some error
  | inr response =>
      if negb (resp_ok response)
         && negb (bool_decide (resp_status response = 404)) then
        Some (MkError ("Failed to delete media: " +:+ resp_statusText response))
      else None
  end.

(** [Promise.all(allMedia.map((media) => this.deleteMediaFile(...)))], up
    to the point where every promise has settled. The calls of
    [deleteMediaFile] that [map] makes each run up to their [await fetch],
    so every request is sent, in the order of the list, before any call
    goes on; the calls then go on in the order their responses arrive,
    [completion], a list of positions in [allMedia]. The result lists the
    outcomes of the calls in that order. *)
Definition deleteMediaFile_all (completion : list nat) (projectId : string)
    (allMedia : list MediaFile) : M (list (Res unit)) :=
  pending ← mapM (fun media => fetch (delete_media_request (m_id media)))
                 allMedia;
  mapM (fun i : nat =>
          match pending !! i with
          | Some res => settle (deleteMediaFile_resume projectId res)
          | None => mret (Ok tt)
          end) completion.

(** [StorageService.deleteProjectMedia]. [await Promise.all(...)] throws
    what the first promise to reject rejected with; the world returned is
    the one in which every call has run to its end. *)
Definition deleteProjectMedia (completion : list nat) (projectId : string)
    : M unit :=
  allMedia ← loadAllMediaFiles projectId;
  settled ← deleteMediaFile_all completion projectId allMedia;
  match first_rejection settled with
  | Some error => throw error
  | None => cache_invalidate mediaCache projectId
  end.

Definition save_timeline_request (sceneId : string)
    (tracks : list TimelineTrack) : Request :=
  {| req_method := PUT; req_url := "/api/timelines";
     req_body := TimelineBody sceneId tracks |}.

(** [StorageService.saveTimeline]. *)
Definition saveTimeline (sceneId : string) (tracks : list TimelineTrack)
    : M unit :=
  res ← fetch (save_timeline_request sceneId tracks);
  response ← await_response res;
  if negb (resp_ok response) then
    throw (MkError ("Failed to save timeline: " +:+ resp_statusText response))
  else cache_set timelinesCache sceneId tracks 1.

Definition load_timeline_request (sceneId : string) : Request :=
  {| req_method := GET; req_url := "/api/timelines?sceneId=" +:+ sceneId;
     req_body := NoBody |}.

(** [StorageService.loadTimeline]. *)
Definition loadTimeline (sceneId : string) : M (option (list TimelineTrack)) :=
  cachedTracks ← cache_get timelinesCache sceneId;
  match cachedTracks with
  | Some cachedTracks => mret (Some cachedTracks)
  | None =>
      res ← fetch (load_timeline_request sceneId);
      response ← await_response res;
      if bool_decide (resp_status response = 404) then mret None
      else if negb (resp_ok response) then
        throw (MkError ("Failed to load timeline: " +:+ resp_statusText response))
      else
        d ← response_json response;
        let cachedTracks := default [] (json_tracks d) in
        (if (0 <? length cachedTracks)%nat then
           cache_set timelinesCache sceneId cachedTracks 1
         else mret tt);;
        mret (Some cachedTracks)
  end.

(** [StorageService.deleteProjectTimeline]. *)
Definition deleteProjectTimeline (sceneId : string) : M unit :=
  cache_invalidate timelinesCache sceneId.

(** ** The media store *)

(** The elements [removeMediaFile] collects: those of every track with
    [el.type === "media" && el.mediaId === id]. *)
Definition elementsToRemove (id : string) (tracks : list TimelineTrack)
    : list SelectedElement :=
  flat_map
    (fun track =>
       map (fun el => {| sel_trackId := track_id track;
                         sel_elementId := el_id el |})
           (filter (fun el => el_type el = "media" ∧ el_mediaId el = Some id)
                   (track_elements track)))
    tracks.

(** The steps of [removeMediaFile] before its [await]: the media store's
    [set], then the cascade into the timeline store. *)
Definition removeMediaFile_local (id : string) : M unit :=
  emit (EvClearVideo id);;
  modify (fun w =>
    set_mediaFiles (filter (fun media => m_id media ≠ id) (mediaFiles w)) w);;
  emit EvSetMediaFiles;;
  tracks ← gets (fun w => tl_tracks (timeline w));
  let toRemove := elementsToRemove id tracks in
  if (0 <? length toRemove)%nat then
    modify (fun w =>
      set_timeline (tl_setSelectedElements toRemove (timeline w)) w);;
    emit (EvSetSelectedElements toRemove);;
    modify (fun w => set_timeline (tl_deleteSelected (timeline w)) w);;
    emit EvDeleteSelected
  else mret tt.

(** [useMediaStore]'s [removeMediaFile]. *)
Definition removeMediaFile (projectId id : string) : M unit :=
  removeMediaFile_local id;;
  try_catch
    (deleteMediaFile projectId id)
    (fun error => console_error "Failed to delete media item:").

(** What a write of [set] comes to, given how its [fetch] settled. *)
Definition write_outcome (what : string) (res : FetchResult) : Res unit :=
  match res with
  | inl error => Throw error
  | inr response =>
      if resp_ok response then Ok tt
      else Throw (MkError ("Failed to " +:+ what +:+ " project: "
                             +:+ resp_statusText response))
  end.

(** The answers a delete accepts: a success, or 404. *)
Definition tolerated (response : Response) : Prop :=
  resp_ok response = true ∨ resp_status response = 404.

(** The timeline after the cascade for media [id]. *)
Definition cascade (id : string) (tl : Timeline) : Timeline :=
  let toRemove := elementsToRemove id (tl_tracks tl) in
  if (0 <? length toRemove)%nat then
    tl_deleteSelected (tl_setSelectedElements toRemove tl)
  else tl.

(** The effects of the cascade, in order. *)
Definition cascade_events (id : string) (tl : Timeline) : list Event :=
  let toRemove := elementsToRemove id (tl_tracks tl) in
  if (0 <? length toRemove)%nat then
    [EvSetSelectedElements toRemove; EvDeleteSelected]
  else [].

Definition is_console_error (ev : Event) : Prop :=
  exists msg, ev = EvConsoleError msg.

(** The answers of the outside world to a list of requests sent one
    after the other. *)
Fixpoint answers (reqs : list Request) (e : Env) : list FetchResult * Env :=
  match reqs with
  | [] => ([], e)
  | r :: rest =>
      let '(res, e1) := fetch_env r e in
      let '(ress, e2) := answers rest e1 in
      (res :: ress, e2)
  end.

(** The outcome of the call of [deleteMediaFile] at position [i], given
    how the requests settled. *)
Definition outcome (pending : list FetchResult) (i : nat) : Res unit :=
  match pending !! i with
  | Some res =>
      match rejection res with
      | Some error => Throw error
      | None => Ok tt
      end
  | None => Ok tt
  end.

(** A date survives [new Date(date.toISOString())]. *)
Definition round_trips (d : Date) : Prop :=
  match d with
  | ValidDate t => Date_parse (iso_format t) = ValidDate t
  | InvalidDate => True
  end.

Definition scene_dates (scene : Scene) : list Date :=
  [scene_createdAt scene; scene_updatedAt scene].

Definition project_dates (project : TProject) : list Date :=
  p_createdAt project :: p_updatedAt project
    :: flat_map scene_dates (p_scenes project).

(** The remote projects adapter returns what was stored: after a [set]
    of a project under its id that succeeded, [get] of that id returns
    the project. *)
Definition adapter_returns_stored : Prop :=
  forall (w w1 : World) value,
    remote_set projectsAdapter (sp_id value) value w = (Ok tt, w1) ->
    exists w2,
      remote_get projectsAdapter (sp_id value) w1 = (Ok (Some value), w2).

(** ** More of [StorageService] and of the media store *)

(** [StorageService.loadMediaFile]. *)
Definition loadMediaFile (projectId id : string) : M (option MediaFile) :=
  allMedia ← loadAllMediaFiles projectId;
  mret (List.find (fun item => bool_decide (m_id item = id)) allMedia).

(** What [toISOString] throws on [Invalid Date]. *)
Definition range_error : JsError := MkError "RangeError: Invalid time value".

(** A computation that leaves the media list and the timeline store as
    they are. *)
Definition keeps_stores {A} (m : M A) : Prop :=
  forall w, mediaFiles (m w).2 = mediaFiles w ∧ timeline (m w).2 = timeline w.

(** A computation that leaves both cache databases as they are. *)
Definition keeps_caches {A} (m : M A) : Prop :=
  forall w, db_media (m w).2 = db_media w ∧ db_timelines (m w).2 = db_timelines w.

(** [useMediaStore]'s [clearProjectMedia]; [completion] is the order in
    which the responses to the deletions arrive. *)
Definition clearProjectMedia (completion : list nat) (projectId : string)
    : M unit :=
  modify (set_mediaFiles []);;
  emit EvSetMediaFiles;;
  try_catch
    (deleteProjectMedia completion projectId)
    (fun error => console_error "Failed to clear media items from storage:").

(** The messages written with [console.error] so far, in order. *)
Definition console_errors (w : World) : list string :=
  omap (fun ev => match ev with
                  | EvConsoleError msg => Some msg
                  | _ => None
                  end) (trace w).

(** A computation that writes nothing to the console when it returns, and
    whose last message is [label] when it throws. *)
Definition logs_failure {A} (label : string) (m : M A) : Prop :=
  forall w,
    match (m w).1 with
    | Ok _ => console_errors (m w).2 = console_errors w
    | Throw _ =>
        exists msgs, console_errors (m w).2 = console_errors w ++ msgs ++ [label]
    end.

End Storage.

Arguments idbAdapter {T} _.
Arguments ttl {T} _.
Arguments World : clear implicits.
Arguments adapter_returns_stored Env {outside} Timeline.

(** * Object keys of uploaded media

    [generateMediaKey] of [lib/r2/upload.ts]. A JavaScript string is the
    list of its UTF-16 code units; the regular expression has no [u] flag,
    so it replaces code unit by code unit. *)

Definition code_units (s : string) : list Z :=
  (fun a => Z.of_N (Ascii.N_of_ascii a)) <$> String.list_ascii_of_string s.

(** The code units that [[^a-zA-Z0-9.-]] does not match. *)
Definition safe_unit (c : Z) : bool :=
  (97 <=? c) && (c <=? 122) || (65 <=? c) && (c <=? 90)
  || (48 <=? c) && (c <=? 57) || (c =? 46) || (c =? 45).

(** [filename.replace(/[^a-zA-Z0-9.-]/g, "_")]. *)
Definition sanitized (filename : list Z) : list Z :=
  (fun c => if safe_unit c then c else 95) <$> filename.

Definition generateMediaKey (projectId mediaId filename : list Z) : list Z :=
  code_units "projects/" ++ projectId ++ code_units "/media/" ++ mediaId
    ++ code_units "-" ++ sanitized filename.

(** * Worlds for the scenarios *)

(** A world over the scripted outside world and the timeline store. *)
Definition script_world (t : Z) (answers : list (Z * FetchResult))
    (media : gmap string (CacheEntry (list MediaFileData)))
    (timelines : gmap string (CacheEntry (list TimelineTrack)))
    (files : list MediaFile) (ts : list TimelineTrack)
    : World Script TimelineStore :=
  {| env := {| script_now := t; script_answers := answers |};
     idb_faults := [];
     db_media := media;
     db_timelines := timelines;
     mediaFiles := files;
     timeline := {| tracks := ts; selectedElements := [] |};
     trace := [] |}.

Definition at_time (t : Z) (w : World Script TimelineStore)
    : World Script TimelineStore :=
  set_env {| script_now := t; script_answers := script_answers (env w) |} w.

(** An answer of the remote, 10 ms after the request. *)
Definition answer (status : Z) (text : string)
    (media : option (list MediaFileData))
    (found : option (list TimelineTrack)) : Z * FetchResult :=
  (10, inr {| resp_status := status; resp_statusText := text;
              resp_json := Some {| json_project := None; json_media := media;
                                   json_tracks := found |} |}).

Definition base1 : ElementBase :=
  {| el_name := "clip"; el_startTime := 0; el_duration := 5 |}.

Definition track1 : TimelineTrack :=
  {| track_id := "t1"; track_name := "Main Track";
     track_elements := [MediaElement "e1" "m1" base1] |}.

Definition media1 : MediaFileData :=
  {| md_id := "m1"; md_name := "clip.mp4"; md_type := "video";
     md_url := Some "https://r2.example/clip.mp4"; md_width := Some 1920;
     md_height := Some 1080; md_duration := Some 5; md_ephemeral := None;
     md_sourceStickerIconName := None |}.

Definition media2 : MediaFileData :=
  {| md_id := "m2"; md_name := "song.mp3"; md_type := "audio";
     md_url := Some "https://r2.example/song.mp3"; md_width := None;
     md_height := None; md_duration := Some 90; md_ephemeral := None;
     md_sourceStickerIconName := None |}.

(** Scenario of C1: the scenario of the spec. A timeline entry is written at time 0
    with a TTL of 60000 ms, and read at time 60000 and at time 61000. *)
Definition empty_world : World Script TimelineStore :=
  script_world 0 [] ∅ ∅ [] [].

Definition written_world : World Script TimelineStore :=
  (cache_set timelinesCache "s1" [track1] 1 empty_world).2.

(** Scenario of C9: a timeline cache entry written at time 0, read at time 61000. *)
Definition stale_world : World Script TimelineStore :=
  script_world 61000 [] ∅
    {["s1" := {| data := [track1]; timestamp := 0; version := 1 |}]} [] [].

(** Scenario of C3: the remote answers the media list request with an empty list,
    and the timeline request with no tracks. *)
Definition empty_media_world : World Script TimelineStore :=
  script_world 0 [answer 200 "OK" (Some []) None] ∅ ∅ [] [].

Definition empty_timeline_world : World Script TimelineStore :=
  script_world 0 [answer 200 "OK" None (Some [])] ∅ ∅ [] [].

(** Scenario of C10: the remote answers 404. *)
Definition no_timeline_world : World Script TimelineStore :=
  script_world 0 [answer 404 "Not Found" None None] ∅ ∅ [] [].

(** Scenario of C8: the remote answers the first delete with a success and the second
    with 404. *)
Definition delete_twice_world : World Script TimelineStore :=
  script_world 0 [answer 200 "OK" None None; answer 404 "Not Found" None None]
    ∅ ∅ [] [].

(** Scenario of C4: two cached media items; the remote rejects both deletions. *)
Definition failing_world : World Script TimelineStore :=
  script_world 0
    [answer 500 "Internal Server Error" None None;
     answer 503 "Service Unavailable" None None]
    {["p1" := {| data := [media1; media2]; timestamp := 0; version := 1 |}]}
    ∅ [] [].

(** Scenario of C7: the scenario of the spec. A project with two scenes, the second
    one current, and an in-memory server that holds no project. *)
Definition project1 : TProject :=
  {| p_id := "p1"; p_name := "Holiday"; p_thumbnail := "thumb.png";
     p_createdAt := ValidDate 1700000000123;
     p_updatedAt := ValidDate 1709210096789;
     p_scenes :=
       [{| scene_id := "s1"; scene_name := "Main scene"; scene_isMain := true;
           scene_createdAt := ValidDate 1700000000123;
           scene_updatedAt := ValidDate 1700000000123 |};
        {| scene_id := "s2"; scene_name := "Scene 2"; scene_isMain := false;
           scene_createdAt := ValidDate 1709210096789;
           scene_updatedAt := ValidDate 1709210096789 |}];
     p_currentSceneId := "s2";
     p_backgroundColor := Some "#000000"; p_backgroundType := Some "color";
     p_blurIntensity := Some 8; p_bookmarks := Some [1; 5];
     p_fps := Some 30;
     p_canvasSize := {| canvas_width := 1920; canvas_height := 1080 |};
     p_canvasMode := "preset" |}.

Definition server_world : World ProjectServer TimelineStore :=
  {| env := {| server_now := 0; server_projects := ∅ |};
     idb_faults := []; db_media := ∅; db_timelines := ∅; mediaFiles := [];
     timeline := {| tracks := []; selectedElements := [] |}; trace := [] |}.

(** Scenario of C2: two tracks; two elements reference ["m1"], two do not; the remote
    rejects the deletion. *)
Definition mixed_tracks : list TimelineTrack :=
  [{| track_id := "t1"; track_name := "Main Track";
      track_elements :=
        [MediaElement "e1" "m1" base1; MediaElement "e2" "m2" base1;
         TextElement "e3" "Title" base1] |};
   {| track_id := "t2"; track_name := "Overlay";
      track_elements := [MediaElement "e1" "m1" base1] |}].

Definition mixed_world : World Script TimelineStore :=
  script_world 0 [answer 500 "Internal Server Error" None None] ∅ ∅
    [media_file_of media1; media_file_of media2] mixed_tracks.



(** Both caches hold a fresh entry, read one second after it was written. *)
Definition cached_world : World Script TimelineStore :=
  script_world 1000 []
    {["p1" := {| data := [media1]; timestamp := 0; version := 1 |}]}
    {["s1" := {| data := [track1]; timestamp := 0; version := 1 |}]} [] [].

(** The remote accepts one write, or one deletion. *)
Definition accepting_world : World Script TimelineStore :=
  script_world 0 [answer 200 "OK" None None] ∅ ∅ [] [].

(** The same caches with a store whose next request fails, and with a store
    whose second request fails, read once the timeline entry is stale. *)
Definition broken_store_world : World Script TimelineStore :=
  set_faults [true] cached_world.

Definition broken_eviction_world : World Script TimelineStore :=
  set_faults [false; true] (at_time 61000 cached_world).

(** The media of a project are cached and the remote accepts a deletion. *)
Definition cached_delete_world : World Script TimelineStore :=
  script_world 0 [answer 200 "OK" None None]
    {["p1" := {| data := [media1]; timestamp := 0; version := 1 |}]}
    ∅ [] [].

(** A project whose date of update is an [Invalid Date]. *)
Definition undated_project : TProject :=
  {| p_id := "p2"; p_name := "Draft"; p_thumbnail := "";
     p_createdAt := ValidDate 1700000000123;
     p_updatedAt := InvalidDate;
     p_scenes := [];
     p_currentSceneId := "";
     p_backgroundColor := None; p_backgroundType := None;
     p_blurIntensity := None; p_bookmarks := None; p_fps := None;
     p_canvasSize := {| canvas_width := 1920; canvas_height := 1080 |};
     p_canvasMode := "preset" |}.

(** The caches are empty and the remote answers with one media item and
    one track. *)
Definition listing_world : World Script TimelineStore :=
  script_world 0 [answer 200 "OK" (Some [media1]) (Some [track1])] ∅ ∅ [] [].

(** The remote accepts a write and the store then refuses the entry. *)
Definition broken_write_world : World Script TimelineStore :=
  set_faults [true] accepting_world.

(** * Properties *)

Section Properties.

Context {Env : Type} {outside : Outside Env} {codec : DateCodec}
  {Timeline : Type} {api : TimelineApi Timeline}.

(** ** The world's fields under updates *)

Lemma db_set_db {T} (s : StoreName T) m (w : World Env Timeline) : db s (set_db s m w) = m.
Proof. by destruct s. Qed.

Lemma idb_faults_set_db {T} (s : StoreName T) m (w : World Env Timeline) :
  idb_faults (set_db s m w) = idb_faults w.
Proof. by destruct s. Qed.

Lemma env_set_db {T} (s : StoreName T) m (w : World Env Timeline) :
  env (set_db s m w) = env w.
Proof. by destruct s. Qed.

Lemma trace_set_db {T} (s : StoreName T) m (w : World Env Timeline) :
  trace (set_db s m w) = trace w.
Proof. by destruct s. Qed.

Lemma mediaFiles_set_db {T} (s : StoreName T) m (w : World Env Timeline) :
  mediaFiles (set_db s m w) = mediaFiles w.
Proof. by destruct s. Qed.

Lemma timeline_set_db {T} (s : StoreName T) m (w : World Env Timeline) :
  timeline (set_db s m w) = timeline w.
Proof. by destruct s. Qed.

(** ** Running a computation *)

Lemma bind_run {A B} (m : M A) (f : A -> M B) (w : World Env Timeline) :
  (m ≫= f) w =
    match m w with
    | (Ok a, w') => f a w'
    | (Throw e, w') => (Throw e, w')
    end.
Proof. reflexivity. Qed.

Lemma mapM_cons_run {A B} (f : A -> M B) x l (w : World Env Timeline) :
  mapM f (x :: l) w =
    match f x w with
    | (Ok y, w1) =>
        match mapM f l w1 with
        | (Ok k, w2) => (Ok (y :: k), w2)
        | (Throw e, w2) => (Throw e, w2)
        end
    | (Throw e, w1) => (Throw e, w1)
    end.
Proof. reflexivity. Qed.

(** ** IndexedDB requests that succeed *)

Lemma idb_request_ok {A} (op : World Env Timeline -> A * World Env Timeline) (w : World Env Timeline) :
  idb_faults w = [] -> idb_request op w = (Ok (op w).1, (op w).2).
Proof. intros H. unfold idb_request. rewrite H. by destruct (op w). Qed.

Lemma idb_get_ok {T} (s : StoreName T) key (w : World Env Timeline) :
  idb_faults w = [] -> idb_get s key w = (Ok (db s w !! key), w).
Proof. intros H. unfold idb_get. by rewrite idb_request_ok. Qed.

Lemma idb_set_ok {T} (s : StoreName T) key entry (w : World Env Timeline) :
  idb_faults w = [] ->
  idb_set s key entry w = (Ok tt, set_db s (<[key := entry]> (db s w)) w).
Proof. intros H. unfold idb_set. by rewrite idb_request_ok. Qed.

Lemma idb_remove_ok {T} (s : StoreName T) key (w : World Env Timeline) :
  idb_faults w = [] ->
  idb_remove s key w = (Ok tt, set_db s (delete key (db s w)) w).
Proof. intros H. unfold idb_remove. by rewrite idb_request_ok. Qed.

(** ** The cache adapter on a working store *)

Ltac unfold_monad :=
  unfold try_catch, mbind, M_bind, mret, M_ret, throw, now, gets, modify,
    emit, console_error in *.

Lemma cache_set_ok {T} (c : CacheAdapter T) key d ver (w : World Env Timeline) :
  idb_faults w = [] ->
  cache_set c key d ver w =
    (Ok tt,
     set_db (idbAdapter c)
       (<[key := {| data := d; timestamp := Date_now (env w); version := ver |}]>
          (db (idbAdapter c) w)) w).
Proof.
  intros H. unfold cache_set. unfold_monad. by rewrite idb_set_ok.
Qed.

Lemma cache_get_absent {T} (c : CacheAdapter T) key (w : World Env Timeline) :
  idb_faults w = [] -> db (idbAdapter c) w !! key = None ->
  cache_get c key w = (Ok None, w).
Proof.
  intros H Hk. unfold cache_get. unfold_monad. by rewrite idb_get_ok, Hk.
Qed.

Lemma cache_get_fresh {T} (c : CacheAdapter T) key entry (w : World Env Timeline) :
  idb_faults w = [] -> db (idbAdapter c) w !! key = Some entry ->
  Date_now (env w) - timestamp entry <= ttl c ->
  cache_get c key w = (Ok (Some (data entry)), w).
Proof.
  intros H Hk Ht. unfold cache_get. unfold_monad. rewrite idb_get_ok, Hk by done.
  destruct (Z.gtb_spec (Date_now (env w) - timestamp entry) (ttl c)); [lia|done].
Qed.

Lemma cache_get_stale {T} (c : CacheAdapter T) key entry (w : World Env Timeline) :
  idb_faults w = [] -> db (idbAdapter c) w !! key = Some entry ->
  Date_now (env w) - timestamp entry > ttl c ->
  cache_get c key w =
    (Ok None, set_db (idbAdapter c) (delete key (db (idbAdapter c) w)) w).
Proof.
  intros H Hk Ht. unfold cache_get. unfold_monad. rewrite idb_get_ok, Hk by done.
  destruct (Z.gtb_spec (Date_now (env w) - timestamp entry) (ttl c)); [|lia].
  by rewrite idb_remove_ok.
Qed.

(** C1. On a store whose requests succeed, let [set(key, v, ver)] run at
    time [write_time], and let [w'] be any later world in which the entry
    of [key] is still the one that [set] wrote. A [get(key)] at a time
    [t <= write_time + ttl] returns [v] and changes nothing; at a time
    [t > write_time + ttl] it returns null and the store has no entry for
    [key] afterwards. *)
Theorem cache_freshness {T} (c : CacheAdapter T) key v ver (w w' : World Env Timeline) :
  idb_faults w = [] ->
  idb_faults w' = [] ->
  let written := (cache_set c key v ver w).2 in
  let write_time := Date_now (env w) in
  let t := Date_now (env w') in
  db (idbAdapter c) w' !! key = db (idbAdapter c) written !! key ->
  (cache_set c key v ver w).1 = Ok tt ∧
  (t <= write_time + ttl c -> cache_get c key w' = (Ok (Some v), w')) ∧
  (t > write_time + ttl c ->
     (cache_get c key w').1 = Ok None ∧
     db (idbAdapter c) (cache_get c key w').2 !! key = None).
Proof.
  intros Hw Hw'. rewrite cache_set_ok by done. simpl.
  rewrite db_set_db, lookup_insert_eq. intros Hk.
  split; [done|]. split; intros Ht.
  - by rewrite (cache_get_fresh c key _ w' Hw' Hk) by (simpl; lia).
  - rewrite (cache_get_stale c key _ w' Hw' Hk) by (simpl; lia). simpl.
    by rewrite db_set_db, lookup_delete_eq.
Qed.

Lemma cache_getWithMetadata_stale {T} (c : CacheAdapter T) key entry
    (w : World Env Timeline) :
  idb_faults w = [] -> db (idbAdapter c) w !! key = Some entry ->
  Date_now (env w) - timestamp entry > ttl c ->
  cache_getWithMetadata c key w =
    (Ok None, set_db (idbAdapter c) (delete key (db (idbAdapter c) w)) w).
Proof.
  intros H Hk Ht. unfold cache_getWithMetadata. unfold_monad.
  rewrite idb_get_ok, Hk by done.
  destruct (Z.gtb_spec (Date_now (env w) - timestamp entry) (ttl c)); [|lia].
  by rewrite idb_remove_ok.
Qed.

Lemma cache_getRemainingTTL_stale {T} (c : CacheAdapter T) key entry
    (w : World Env Timeline) :
  idb_faults w = [] -> db (idbAdapter c) w !! key = Some entry ->
  Date_now (env w) - timestamp entry > ttl c ->
  cache_getRemainingTTL c key w = (Ok (-1), w).
Proof.
  intros H Hk Ht. unfold cache_getRemainingTTL. unfold_monad.
  rewrite idb_get_ok, Hk by done. simpl.
  by destruct (Z.gtb_spec (ttl c - (Date_now (env w) - timestamp entry)) 0);
    [lia|].
Qed.

(** C9, as the code has it. On an entry whose age exceeds the TTL (the
    store's requests succeeding), [getWithMetadata(key)] does what
    [get(key)] does: it returns null and removes the entry; and
    [getRemainingTTL(key)] returns -1 and changes nothing: the stale entry
    stays in the store. *)
Theorem stale_introspection {T} (c : CacheAdapter T) key entry (w : World Env Timeline) :
  idb_faults w = [] ->
  db (idbAdapter c) w !! key = Some entry ->
  Date_now (env w) - timestamp entry > ttl c ->
  (cache_getWithMetadata c key w).1 = Ok None ∧
  (cache_getWithMetadata c key w).2 = (cache_get c key w).2 ∧
  db (idbAdapter c) (cache_getWithMetadata c key w).2 !! key = None ∧
  cache_getRemainingTTL c key w = (Ok (-1), w) ∧
  db (idbAdapter c) (cache_getRemainingTTL c key w).2 !! key = Some entry.
Proof.
  intros H Hk Ht.
  rewrite (cache_getWithMetadata_stale c key entry w),
    (cache_get_stale c key entry w),
    (cache_getRemainingTTL_stale c key entry w) by done.
  simpl. by rewrite db_set_db, lookup_delete_eq.
Qed.

(** ** Cache-aside reads *)

Lemma requests_add_event ev (w : World Env Timeline) :
  requests (add_event ev w) = requests w ++ option_list (fetch_of ev).
Proof.
  unfold requests. simpl. rewrite omap_app. simpl.
  by destruct (fetch_of ev).
Qed.

(** A [get] that misses on a working store leaves no entry for the key:
    there was none, or it was stale and has been removed. *)
Lemma cache_get_miss {T} (c : CacheAdapter T) key (w : World Env Timeline) :
  idb_faults w = [] ->
  (cache_get c key w).1 = Ok None ->
  (cache_get c key w).2
    = set_db (idbAdapter c) (delete key (db (idbAdapter c) w)) w.
Proof.
  intros H. destruct (db (idbAdapter c) w !! key) as [entry|] eqn:Hk.
  - destruct (Z.gtb_spec (Date_now (env w) - timestamp entry) (ttl c)).
    + by rewrite (cache_get_stale c key entry w) by (done || lia).
    + by rewrite (cache_get_fresh c key entry w) by (done || lia).
  - rewrite cache_get_absent by done. intros _. simpl.
    rewrite delete_id by done. by destruct c as [[] ?], w.
Qed.

Ltac unfold_service :=
  unfold loadAllMediaFiles, loadTimeline, saveTimeline, deleteMediaFile,
    deleteMediaFile_resume, cache_get, cache_set, cache_invalidate,
    idb_get, idb_set, idb_remove, idb_request, fetch, await_response,
    response_json in *.

Ltac trace_simpl :=
  unfold requests; simpl; rewrite ?omap_app; simpl; rewrite <- ?app_assoc;
  simpl.

(** With no entry for the key, whatever the store does, a load sends the
    list request, and no other. *)
Lemma loadAllMediaFiles_refetch projectId (w : World Env Timeline) :
  db MediaStore w !! projectId = None ->
  requests (loadAllMediaFiles projectId w).2
    = requests w ++ [list_media_request projectId].
Proof.
  intros Hk. unfold_service. unfold_monad. simpl in *.
  repeat (case_match; simplify_eq/=; try done); by trace_simpl.
Qed.

Lemma loadTimeline_refetch sceneId (w : World Env Timeline) :
  db TimelinesStore w !! sceneId = None ->
  requests (loadTimeline sceneId w).2
    = requests w ++ [load_timeline_request sceneId].
Proof.
  intros Hk. unfold_service. unfold_monad. simpl in *.
  repeat (case_match; simplify_eq/=; try done); by trace_simpl.
Qed.

(** What [loadAllMediaFiles] does once its cache read has missed and the
    remote has answered with a success and a JSON body. *)
Lemma loadAllMediaFiles_miss projectId (w : World Env Timeline) response e' d :
  idb_faults w = [] ->
  (cache_get mediaCache projectId w).1 = Ok None ->
  fetch_env (list_media_request projectId) (env w) = (inr response, e') ->
  resp_ok response = true ->
  resp_json response = Some d ->
  let media := default [] (json_media d) in
  let sent :=
    add_event (EvFetch (list_media_request projectId))
      (set_env e' (set_db MediaStore (delete projectId (db_media w)) w)) in
  loadAllMediaFiles projectId w =
    (Ok (map media_file_of media),
     if (0 <? length media)%nat then
       set_db MediaStore
         (<[projectId := {| data := media; timestamp := Date_now e';
                            version := 1 |}]> (db_media sent)) sent
     else sent).
Proof.
  intros Hw Hmiss Hfetch Hok Hjson media sent.
  pose proof (cache_get_miss mediaCache projectId w Hw Hmiss) as Hw1.
  unfold loadAllMediaFiles. unfold_monad.
  destruct (cache_get mediaCache projectId w) as [r w1]. simpl in *. subst.
  unfold fetch, await_response, response_json. simpl.
  rewrite Hfetch. simpl. rewrite Hok, Hjson. simpl. fold media.
  destruct (0 <? length media)%nat; [|done].
  unfold cache_set, idb_set, idb_request. unfold_monad. simpl.
  by rewrite Hw.
Qed.

Lemma loadTimeline_miss sceneId (w : World Env Timeline) response e' :
  idb_faults w = [] ->
  (cache_get timelinesCache sceneId w).1 = Ok None ->
  fetch_env (load_timeline_request sceneId) (env w) = (inr response, e') ->
  let sent :=
    add_event (EvFetch (load_timeline_request sceneId))
      (set_env e' (set_db TimelinesStore (delete sceneId (db_timelines w)) w)) in
  (resp_status response = 404 -> loadTimeline sceneId w = (Ok None, sent)) ∧
  (resp_ok response = true ->
   forall d, resp_json response = Some d ->
   let found := default [] (json_tracks d) in
   loadTimeline sceneId w =
     (Ok (Some found),
      if (0 <? length found)%nat then
        set_db TimelinesStore
          (<[sceneId := {| data := found; timestamp := Date_now e';
                           version := 1 |}]> (db_timelines sent)) sent
      else sent)).
Proof.
  intros Hw Hmiss Hfetch sent.
  pose proof (cache_get_miss timelinesCache sceneId w Hw Hmiss) as Hw1.
  unfold loadTimeline. unfold_monad.
  destruct (cache_get timelinesCache sceneId w) as [r w1]. simpl in *. subst.
  unfold fetch, await_response, response_json. simpl.
  rewrite Hfetch. simpl. split.
  - intros ->. by rewrite bool_decide_true.
  - intros Hok d Hjson.
    rewrite bool_decide_false.
    2:{ unfold resp_ok in Hok. intros E. rewrite E in Hok. done. }
    rewrite Hok, Hjson. unfold_monad. simpl.
    destruct (0 <? length (default [] (json_tracks d)))%nat; [|done].
    unfold cache_set, idb_set, idb_request. unfold_monad. simpl.
    by rewrite Hw.
Qed.

(** A cache read leaves the outside world as it is. *)
Lemma cache_get_env {T} (c : CacheAdapter T) key (w : World Env Timeline) :
  env (cache_get c key w).2 = env w.
Proof.
  unfold_service. unfold_monad.
  repeat (case_match; simplify_eq/=; try done);
    by rewrite ?env_set_db.
Qed.

(** [cache.get] catches what the store throws. *)
Lemma cache_get_no_throw {T} (c : CacheAdapter T) key (w : World Env Timeline) e :
  (cache_get c key w).1 ≠ Throw e.
Proof.
  unfold_service. unfold_monad.
  repeat (case_match; simplify_eq/=; try done).
Qed.

(** What the loads do once the cache read has missed and the remote has
    answered with nothing to cache, whatever the store does. *)
Lemma loadAllMediaFiles_empty projectId (w : World Env Timeline) response e' d :
  (cache_get mediaCache projectId w).1 = Ok None ->
  fetch_env (list_media_request projectId) (env w) = (inr response, e') ->
  resp_ok response = true ->
  resp_json response = Some d ->
  default [] (json_media d) = [] ->
  loadAllMediaFiles projectId w =
    (Ok [],
     add_event (EvFetch (list_media_request projectId))
       (set_env e' (cache_get mediaCache projectId w).2)).
Proof.
  intros Hmiss Hfetch Hok Hjson Hempty.
  pose proof (cache_get_env mediaCache projectId w) as Henv.
  unfold loadAllMediaFiles. rewrite bind_run.
  destruct (cache_get mediaCache projectId w) as [r w1]. simpl in *. subst r.
  unfold fetch, await_response, response_json. unfold_monad.
  rewrite Henv, Hfetch. simpl. by rewrite Hok, Hjson, Hempty.
Qed.

Lemma loadTimeline_empty sceneId (w : World Env Timeline) response e' :
  (cache_get timelinesCache sceneId w).1 = Ok None ->
  fetch_env (load_timeline_request sceneId) (env w) = (inr response, e') ->
  let sent :=
    add_event (EvFetch (load_timeline_request sceneId))
      (set_env e' (cache_get timelinesCache sceneId w).2) in
  (resp_status response = 404 -> loadTimeline sceneId w = (Ok None, sent)) ∧
  (resp_ok response = true ->
   forall d, resp_json response = Some d ->
   default [] (json_tracks d) = [] ->
   loadTimeline sceneId w = (Ok (Some []), sent)).
Proof.
  intros Hmiss Hfetch.
  pose proof (cache_get_env timelinesCache sceneId w) as Henv.
  unfold loadTimeline. rewrite bind_run.
  destruct (cache_get timelinesCache sceneId w) as [r w1]. simpl in *. subst r.
  unfold fetch, await_response, response_json. unfold_monad.
  rewrite Henv, Hfetch. simpl. split.
  - intros ->. by rewrite bool_decide_true.
  - intros Hok d Hjson Hempty.
    rewrite bool_decide_false.
    2:{ unfold resp_ok in Hok. intros E. rewrite E in Hok. done. }
    by rewrite Hok, Hjson, Hempty.
Qed.

(** C3. On the cache-miss path, with the remote answering the list
    request with a success: if the media list of the answer is empty or
    absent, [loadAllMediaFiles] returns the empty list and writes nothing
    to the media cache, whatever the store does; the store's requests
    succeeding, the cache has no entry for the project afterwards; and a
    read in any world where it has none sends the list request again. If
    the list is not empty (the store's requests succeeding), it is
    returned and the cache holds it, stamped with the time of the write.
    The same holds of [loadTimeline] and the timelines cache, for an
    answer with empty or absent tracks and for a 404, on which it returns
    null. *)
Theorem empty_result_not_cached :
  (forall projectId (w : World Env Timeline) response e' d,
     (cache_get mediaCache projectId w).1 = Ok None ->
     fetch_env (list_media_request projectId) (env w) = (inr response, e') ->
     resp_ok response = true ->
     resp_json response = Some d ->
     let media := default [] (json_media d) in
     let read := (cache_get mediaCache projectId w).2 in
     let after := (loadAllMediaFiles projectId w).2 in
     (media = [] ->
        (loadAllMediaFiles projectId w).1 = Ok [] ∧
        db MediaStore after = db MediaStore read ∧
        (idb_faults w = [] -> db MediaStore after !! projectId = None) ∧
        forall w' : World Env Timeline,
          db MediaStore w' !! projectId = None ->
          requests (loadAllMediaFiles projectId w').2
            = requests w' ++ [list_media_request projectId]) ∧
     (media ≠ [] -> idb_faults w = [] ->
        (loadAllMediaFiles projectId w).1 = Ok (map media_file_of media) ∧
        db MediaStore after !! projectId
          = Some {| data := media; timestamp := Date_now e';
                    version := 1 |})) ∧
  (forall sceneId (w : World Env Timeline) response e',
     (cache_get timelinesCache sceneId w).1 = Ok None ->
     fetch_env (load_timeline_request sceneId) (env w) = (inr response, e') ->
     let read := (cache_get timelinesCache sceneId w).2 in
     let after := (loadTimeline sceneId w).2 in
     let not_cached :=
       db TimelinesStore after = db TimelinesStore read ∧
       (idb_faults w = [] -> db TimelinesStore after !! sceneId = None) ∧
       forall w' : World Env Timeline,
         db TimelinesStore w' !! sceneId = None ->
         requests (loadTimeline sceneId w').2
           = requests w' ++ [load_timeline_request sceneId] in
     (resp_status response = 404 ->
        (loadTimeline sceneId w).1 = Ok None ∧ not_cached) ∧
     (resp_ok response = true ->
      forall d, resp_json response = Some d ->
      let found := default [] (json_tracks d) in
      (found = [] ->
         (loadTimeline sceneId w).1 = Ok (Some []) ∧ not_cached) ∧
      (found ≠ [] -> idb_faults w = [] ->
         (loadTimeline sceneId w).1 = Ok (Some found) ∧
         db TimelinesStore after !! sceneId
           = Some {| data := found; timestamp := Date_now e';
                     version := 1 |}))).
Proof.
  split.
  - intros projectId w response e' d Hmiss Hfetch Hok Hjson media read after.
    subst read after. split.
    + intros Hempty.
      rewrite (loadAllMediaFiles_empty projectId w response e' d) by done.
      simpl. split; [done|]. split; [done|]. split.
      * intros Hw. rewrite (cache_get_miss mediaCache projectId w Hw Hmiss).
        simpl. apply lookup_delete_eq.
      * apply loadAllMediaFiles_refetch.
    + intros Hne Hw.
      rewrite (loadAllMediaFiles_miss projectId w response e' d) by done.
      fold media. destruct media; [done|]. simpl.
      by rewrite lookup_insert_eq.
  - intros sceneId w response e' Hmiss Hfetch read after not_cached.
    destruct (loadTimeline_empty sceneId w response e' Hmiss Hfetch)
      as [H404 Hempty].
    assert (Hnot : forall r,
               loadTimeline sceneId w
                 = (r, add_event (EvFetch (load_timeline_request sceneId))
                         (set_env e' (cache_get timelinesCache sceneId w).2)) ->
               not_cached).
    { intros r Hrun. subst not_cached read after. rewrite Hrun. simpl.
      split; [done|]. split.
      - intros Hw.
        rewrite (cache_get_miss timelinesCache sceneId w Hw Hmiss).
        simpl. apply lookup_delete_eq.
      - apply loadTimeline_refetch. }
    split.
    + intros Hst. split; [by rewrite (H404 Hst)|]. by eapply Hnot, H404.
    + intros Hok d Hjson found. split.
      * intros Hfound. split; [by rewrite (Hempty Hok d Hjson Hfound)|].
        by eapply Hnot, Hempty.
      * intros Hne Hw. subst after.
        destruct (loadTimeline_miss sceneId w response e' Hw Hmiss Hfetch)
          as [_ Hsucc].
        rewrite (Hsucc Hok d Hjson). fold found.
        destruct found; [done|]. simpl. by rewrite lookup_insert_eq.
Qed.

(** C10. [loadTimeline] returns null exactly when its cache read misses
    and the remote answers 404; when the cache read misses and the remote
    answers with a success whose tracks are the empty list, it returns
    the empty list. *)
Theorem loadTimeline_null_only_on_404 :
  (forall sceneId (w : World Env Timeline),
     (loadTimeline sceneId w).1 = Ok None <->
     (cache_get timelinesCache sceneId w).1 = Ok None ∧
     exists response e',
       fetch_env (load_timeline_request sceneId) (env w) = (inr response, e') ∧
       resp_status response = 404) ∧
  (forall sceneId (w : World Env Timeline) response e' d,
     (cache_get timelinesCache sceneId w).1 = Ok None ->
     fetch_env (load_timeline_request sceneId) (env w) = (inr response, e') ->
     resp_ok response = true ->
     resp_json response = Some d ->
     json_tracks d = Some [] ->
     (loadTimeline sceneId w).1 = Ok (Some [])).
Proof.
  clear codec api.
  split.
  - intros sceneId w.
    pose proof (cache_get_env timelinesCache sceneId w) as Henv.
    unfold loadTimeline. unfold_monad.
    destruct (cache_get timelinesCache sceneId w) as [[[found|]|e] w1];
      simpl in *; [naive_solver| |naive_solver].
    unfold fetch, await_response, response_json. unfold_monad.
    rewrite Henv.
    destruct (fetch_env (load_timeline_request sceneId) (env w))
      as [[err|response] e'']; simpl; [naive_solver|].
    case_bool_decide as Hst; simpl; [naive_solver|].
    split; [|naive_solver].
    repeat (case_match; simplify_eq/=; try done).
  - intros sceneId w response e' d Hmiss Hfetch Hok Hjson Htracks.
    pose proof (cache_get_env timelinesCache sceneId w) as Henv.
    unfold loadTimeline. unfold_monad.
    destruct (cache_get timelinesCache sceneId w) as [r w1].
    simpl in *. subst r.
    unfold fetch, await_response, response_json. unfold_monad.
    rewrite Henv, Hfetch. simpl.
    rewrite bool_decide_false.
    2:{ unfold resp_ok in Hok. intros E. rewrite E in Hok. done. }
    by rewrite Hok, Hjson, Htracks.
Qed.

(** ** The remote projects adapter *)

Ltac unfold_adapter :=
  unfold remote_set, remote_get, remote_remove, fetch, await_response,
    response_json in *.

Lemma remote_get_requests a id (w : World Env Timeline) :
  requests (remote_get a id w).2 = requests w ++ [get_request a id].
Proof.
  unfold_adapter. unfold_monad.
  repeat (case_match; simplify_eq/=; try done); by trace_simpl.
Qed.

(** C6. [set(id, value)] first performs [get(id)]. If that returns a
    project, the requests [set] sends are the GET and then a PUT for
    [id] carrying [value]; if it returns null, the GET and then a POST
    carrying [value]; if it throws, the GET alone, and [set] throws the
    same error. A write that is rejected, or answered with a status that
    is not a success, makes [set] throw. *)
Theorem set_gets_then_writes a id value (w : World Env Timeline) :
  let looked := remote_get a id w in
  let r := remote_set a id value w in
  match looked.1 with
  | Ok (Some _) =>
      requests r.2
        = requests w ++ [get_request a id; put_request a id value] ∧
      r.1 = write_outcome "update"
              (fetch_env (put_request a id value) (env looked.2)).1
  | Ok None =>
      requests r.2
        = requests w ++ [get_request a id; post_request a value] ∧
      r.1 = write_outcome "create"
              (fetch_env (post_request a value) (env looked.2)).1
  | Throw error =>
      requests r.2 = requests w ++ [get_request a id] ∧
      r.1 = Throw error
  end.
Proof.
  intros looked r. subst looked r.
  pose proof (remote_get_requests a id w) as Hreq.
  unfold remote_set. unfold_monad.
  destruct (remote_get a id w) as [[[existing|]|error] w1]; simpl in *.
  - unfold fetch, await_response, write_outcome. unfold_monad.
    destruct (fetch_env (put_request a id value) (env w1))
      as [[err|response] e']; simpl; [|destruct (resp_ok response); simpl];
      unfold requests in *; simpl; rewrite ?omap_app, Hreq; simpl;
      by rewrite <- ?app_assoc, ?app_nil_r.
  - unfold fetch, await_response, write_outcome. unfold_monad.
    destruct (fetch_env (post_request a value) (env w1))
      as [[err|response] e']; simpl; [|destruct (resp_ok response); simpl];
      unfold requests in *; simpl; rewrite ?omap_app, Hreq; simpl;
      by rewrite <- ?app_assoc, ?app_nil_r.
  - unfold requests in *. simpl. by rewrite omap_app, Hreq, app_nil_r.
Qed.

(** ** Deletes *)

Lemma tolerated_guard response :
  tolerated response ->
  negb (resp_ok response) && negb (bool_decide (resp_status response = 404))
    = false.
Proof.
  intros [Hok|Hst].
  - by rewrite Hok.
  - rewrite bool_decide_true by done. by rewrite andb_false_r.
Qed.

Lemma not_tolerated_guard response :
  resp_ok response = false -> resp_status response ≠ 404 ->
  negb (resp_ok response) && negb (bool_decide (resp_status response = 404))
    = true.
Proof. intros Hok Hst. by rewrite Hok, bool_decide_false. Qed.

(** [invalidate] swallows what the store throws, and leaves the outside
    world as it is. *)
Lemma cache_invalidate_ok {T} (c : CacheAdapter T) key (w : World Env Timeline) :
  (cache_invalidate c key w).1 = Ok tt ∧
  env (cache_invalidate c key w).2 = env w.
Proof.
  unfold cache_invalidate, idb_remove, idb_request. unfold_monad.
  repeat (case_match; simplify_eq/=; try done); by rewrite ?env_set_db.
Qed.

Lemma remote_remove_run a id (w : World Env Timeline) response e' :
  fetch_env (delete_request a id) (env w) = (inr response, e') ->
  env (remote_remove a id w).2 = e' ∧
  (tolerated response -> (remote_remove a id w).1 = Ok tt) ∧
  (resp_ok response = false -> resp_status response ≠ 404 ->
   (remote_remove a id w).1
     = Throw (MkError ("Failed to delete project: "
                         +:+ resp_statusText response))).
Proof.
  intros Hfetch. unfold remote_remove, fetch, await_response. unfold_monad.
  rewrite Hfetch. simpl. split; [|split].
  - by destruct (_ && _).
  - intros Ht. by rewrite tolerated_guard.
  - intros Hok Hst. by rewrite not_tolerated_guard.
Qed.

Lemma deleteMediaFile_run projectId id (w : World Env Timeline) response e' :
  fetch_env (delete_media_request id) (env w) = (inr response, e') ->
  env (deleteMediaFile projectId id w).2 = e' ∧
  (tolerated response -> (deleteMediaFile projectId id w).1 = Ok tt) ∧
  (resp_ok response = false -> resp_status response ≠ 404 ->
   (deleteMediaFile projectId id w).1
     = Throw (MkError ("Failed to delete media: "
                         +:+ resp_statusText response))).
Proof.
  intros Hfetch.
  unfold deleteMediaFile, deleteMediaFile_resume, fetch, await_response.
  unfold_monad. rewrite Hfetch. simpl.
  set (sent := add_event _ _).
  destruct (cache_invalidate_ok mediaCache projectId sent) as [Hr He].
  split; [|split].
  - destruct (_ && _); [done|]. by rewrite He.
  - intros Ht. by rewrite tolerated_guard.
  - intros Hok Hst. by rewrite not_tolerated_guard.
Qed.

(** C8. When the remote answers a DELETE with a success or with 404,
    [remove(id)] of the projects adapter and [deleteMediaFile] do not
    throw; a second delete of the same id, answered in the same way, does
    not throw either; an answer with any other status makes them throw
    an error that carries the status text. *)
Theorem delete_tolerates_absence :
  (forall a id (w : World Env Timeline) response e',
     fetch_env (delete_request a id) (env w) = (inr response, e') ->
     (tolerated response -> (remote_remove a id w).1 = Ok tt) ∧
     (resp_ok response = false -> resp_status response ≠ 404 ->
      (remote_remove a id w).1
        = Throw (MkError ("Failed to delete project: "
                            +:+ resp_statusText response))) ∧
     (forall response2 e2,
        fetch_env (delete_request a id) e' = (inr response2, e2) ->
        tolerated response -> tolerated response2 ->
        (remote_remove a id (remote_remove a id w).2).1 = Ok tt)) ∧
  (forall projectId id (w : World Env Timeline) response e',
     fetch_env (delete_media_request id) (env w) = (inr response, e') ->
     (tolerated response -> (deleteMediaFile projectId id w).1 = Ok tt) ∧
     (resp_ok response = false -> resp_status response ≠ 404 ->
      (deleteMediaFile projectId id w).1
        = Throw (MkError ("Failed to delete media: "
                            +:+ resp_statusText response))) ∧
     (forall response2 e2,
        fetch_env (delete_media_request id) e' = (inr response2, e2) ->
        tolerated response -> tolerated response2 ->
        (deleteMediaFile projectId id (deleteMediaFile projectId id w).2).1
          = Ok tt)).
Proof.
  split.
  - intros a id w response e' Hfetch.
    destruct (remote_remove_run a id w response e' Hfetch) as (He & Hok & Hko).
    split; [done|]. split; [done|].
    intros response2 e2 Hfetch2 _ Ht2. rewrite <- He in Hfetch2.
    by apply (remote_remove_run a id _ response2 e2 Hfetch2).
  - intros projectId id w response e' Hfetch.
    destruct (deleteMediaFile_run projectId id w response e' Hfetch)
      as (He & Hok & Hko).
    split; [done|]. split; [done|].
    intros response2 e2 Hfetch2 _ Ht2. rewrite <- He in Hfetch2.
    by apply (deleteMediaFile_run projectId id _ response2 e2 Hfetch2).
Qed.

(** ** Removing a media file *)

Lemma removeMediaFile_local_run id (w : World Env Timeline) :
  (removeMediaFile_local id w).1 = Ok tt ∧
  env (removeMediaFile_local id w).2 = env w ∧
  mediaFiles (removeMediaFile_local id w).2
    = filter (fun media => m_id media ≠ id) (mediaFiles w) ∧
  timeline (removeMediaFile_local id w).2 = cascade id (timeline w) ∧
  trace (removeMediaFile_local id w).2
    = trace w ++ [EvClearVideo id; EvSetMediaFiles]
        ++ cascade_events id (timeline w).
Proof.
  unfold removeMediaFile_local, cascade, cascade_events. unfold_monad. simpl.
  destruct (0 <? length _)%nat; simpl; rewrite <- ?app_assoc; done.
Qed.

Lemma cache_invalidate_frame {T} (c : CacheAdapter T) key (w : World Env Timeline) :
  mediaFiles (cache_invalidate c key w).2 = mediaFiles w ∧
  timeline (cache_invalidate c key w).2 = timeline w ∧
  exists rest,
    trace (cache_invalidate c key w).2 = trace w ++ rest ∧
    Forall is_console_error rest.
Proof.
  unfold cache_invalidate, idb_remove, idb_request. unfold_monad.
  destruct (idb_faults w) as [|[] fs]; simpl;
    rewrite ?mediaFiles_set_db, ?timeline_set_db, ?trace_set_db; simpl.
  - split; [done|]. split; [done|]. exists []. by rewrite app_nil_r.
  - split; [done|]. split; [done|]. eexists. split; [done|].
    repeat constructor. by eexists.
  - split; [done|]. split; [done|]. exists []. by rewrite app_nil_r.
Qed.

Lemma deleteMediaFile_caught projectId id (w : World Env Timeline) :
  let r := try_catch (deleteMediaFile projectId id)
             (fun error => console_error "Failed to delete media item:") w in
  r.1 = Ok tt ∧ mediaFiles r.2 = mediaFiles w ∧ timeline r.2 = timeline w ∧
  exists rest,
    trace r.2 = trace w ++ EvFetch (delete_media_request id) :: rest ∧
    Forall is_console_error rest.
Proof.
  assert (Hlog : forall msg, Forall is_console_error [EvConsoleError msg]).
  { intros msg. repeat constructor. by eexists. }
  unfold deleteMediaFile, deleteMediaFile_resume, fetch, await_response.
  unfold_monad. simpl.
  destruct (fetch_env (delete_media_request id) (env w))
    as [[err|response] e']; simpl.
  - repeat split. eexists. by rewrite <- app_assoc.
  - destruct (_ && _); simpl.
    + repeat split. eexists. by rewrite <- app_assoc.
    + set (sent := add_event _ _).
      destruct (cache_invalidate_ok mediaCache projectId sent) as [Hr _].
      destruct (cache_invalidate_frame mediaCache projectId sent)
        as (Hm & Ht & rest & Htr & Hrest).
      destruct (cache_invalidate mediaCache projectId sent) as [r w1].
      simpl in *. subst r. split; [done|]. split; [done|]. split; [done|].
      exists rest. split; [|done]. simpl. by rewrite Htr, <- app_assoc.
Qed.

(** The steps of [removeMediaFile] over any timeline store: the local
    steps, then the request, then console output only; no throw, and the
    stores stay as the local steps left them. *)
Lemma removeMediaFile_steps projectId id (w : World Env Timeline) :
  let local := (removeMediaFile_local id w).2 in
  let r := removeMediaFile projectId id w in
  (mediaFiles local = filter (fun media => m_id media ≠ id) (mediaFiles w) ∧
   timeline local = cascade id (timeline w) ∧
   requests local = requests w) ∧
  r.1 = Ok tt ∧
  mediaFiles r.2 = mediaFiles local ∧
  timeline r.2 = timeline local ∧
  exists rest,
    trace r.2
      = trace w ++ [EvClearVideo id; EvSetMediaFiles]
          ++ cascade_events id (timeline w)
          ++ EvFetch (delete_media_request id) :: rest ∧
    Forall is_console_error rest.
Proof.
  intros local r. subst local r.
  destruct (removeMediaFile_local_run id w) as (Hr & He & Hm & Ht & Htr).
  unfold removeMediaFile. unfold mbind, M_bind.
  destruct (removeMediaFile_local id w) as [r1 w1]. simpl in *. subst r1.
  destruct (deleteMediaFile_caught projectId id w1)
    as (Hr2 & Hm2 & Ht2 & rest & Htr2 & Hrest).
  simpl in *. split.
  - split; [done|]. split; [done|].
    unfold requests. rewrite Htr, omap_app. simpl.
    unfold cascade_events. destruct (0 <? length _)%nat; simpl;
      by rewrite app_nil_r.
  - split; [done|]. split; [done|]. split; [done|].
    exists rest. split; [|done].
    rewrite Htr2, Htr. by rewrite <- !app_assoc.
Qed.

(** ** Deleting the media of a project *)

Lemma cache_invalidate_requests {T} (c : CacheAdapter T) key (w : World Env Timeline) :
  requests (cache_invalidate c key w).2 = requests w.
Proof.
  unfold cache_invalidate, idb_remove, idb_request. unfold_monad.
  destruct (idb_faults w) as [|[] fs]; simpl;
    unfold requests; rewrite ?trace_set_db; simpl; [done| |done].
  by rewrite omap_app, app_nil_r.
Qed.

Lemma cache_invalidate_healthy {T} (c : CacheAdapter T) key (w : World Env Timeline) :
  idb_faults w = [] ->
  idb_faults (cache_invalidate c key w).2 = [] ∧
  db (idbAdapter c) (cache_invalidate c key w).2 !! key = None.
Proof.
  intros Hw. unfold cache_invalidate. unfold_monad.
  rewrite idb_remove_ok by done. simpl.
  by rewrite idb_faults_set_db, db_set_db, lookup_delete_eq.
Qed.

(** One call of [deleteMediaFile] going on after its [fetch] settled. *)
Lemma deleteMediaFile_resume_outcome projectId res (w : World Env Timeline) :
  let r := deleteMediaFile_resume projectId res w in
  r.1 = match rejection res with
        | Some error => Throw error
        | None => Ok tt
        end ∧
  requests r.2 = requests w ∧
  (idb_faults w = [] -> idb_faults r.2 = []) ∧
  (is_Some (rejection res) -> r.2 = w).
Proof.
  unfold deleteMediaFile_resume, await_response, rejection. unfold_monad.
  destruct res as [error|response]; simpl; [by eauto|].
  destruct (_ && _); simpl; [by eauto|].
  destruct (cache_invalidate_ok mediaCache projectId w) as [Hr _].
  split; [done|]. split; [apply cache_invalidate_requests|].
  split; [|by intros []].
  intros Hw. by apply (cache_invalidate_healthy mediaCache).
Qed.

(** Sending the requests: none of them waits for another. *)
Lemma send_all (l : list MediaFile) (w : World Env Timeline) :
  let reqs := map (fun media => delete_media_request (m_id media)) l in
  exists w',
    mapM (fun media => fetch (delete_media_request (m_id media))) l w
      = (Ok (answers reqs (env w)).1, w') ∧
    requests w' = requests w ++ reqs ∧
    idb_faults w' = idb_faults w ∧
    db_media w' = db_media w.
Proof.
  revert w. induction l as [|media l IH]; intros w.
  - exists w. simpl. unfold_monad. by rewrite app_nil_r.
  - rewrite mapM_cons_run. simpl. unfold fetch at 1.
    destruct (fetch_env (delete_media_request (m_id media)) (env w))
      as [res e1].
    set (w1 := add_event _ _).
    destruct (IH w1) as (w2 & Hrun & Hreq & Hf & Hdb).
    change (env w1) with e1 in Hrun. rewrite Hrun.
    destruct (answers _ e1) as [ress e2]. simpl.
    exists w2. split; [done|]. split; [|done].
    rewrite Hreq. unfold requests. simpl. rewrite omap_app. simpl.
    by rewrite <- app_assoc.
Qed.

(** The calls going on, in the order their responses arrive. *)
Lemma settle_all projectId pending (completion : list nat) (w : World Env Timeline) :
  exists w',
    mapM (fun i : nat =>
            match pending !! i with
            | Some res => settle (deleteMediaFile_resume projectId res)
            | None => mret (Ok tt)
            end) completion w
      = (Ok (map (outcome pending) completion), w') ∧
    requests w' = requests w ∧
    (idb_faults w = [] -> idb_faults w' = []) ∧
    (Forall (fun res => is_Some (rejection res)) pending -> w' = w).
Proof.
  revert w. induction completion as [|i completion IH]; intros w.
  - exists w. simpl. by unfold_monad.
  - rewrite mapM_cons_run. simpl. unfold outcome at 1.
    destruct (pending !! i) as [res|] eqn:Hi.
    + unfold settle at 1.
      destruct (deleteMediaFile_resume_outcome projectId res w)
        as (Hr & Hreq & Hf & Hsame).
      destruct (deleteMediaFile_resume projectId res w) as [r1 w1].
      simpl in *. subst r1.
      destruct (IH w1) as (w2 & Hrun & Hreq2 & Hf2 & Hsame2).
      rewrite Hrun. exists w2.
      split; [done|]. split; [congruence|]. split; [by auto|].
      intros Hall. rewrite Hsame2 by done. apply Hsame.
      eapply (proj1 (Forall_forall _ _) Hall), list_elem_of_lookup_2, Hi.
    + unfold mret at 1, M_ret at 1.
      destruct (IH w) as (w2 & Hrun & Hreq2 & Hf2 & Hsame2).
      rewrite Hrun. by exists w2.
Qed.

(** C4, as the code has it. With [allMedia] the loaded list:
    [deleteProjectMedia] sends one DELETE request per item, in the order
    of the list, whatever the outcome of the others. It throws what the
    first deletion to reject, in the order the responses arrive, rejected
    with, and returns normally when none rejected. The closing
    invalidation runs only in that second case, and then, the store's
    requests succeeding, the cache has no entry for the project; when
    every deletion rejects, the media cache is left as it was after the
    load. *)
Theorem deleteProjectMedia_fan_out completion projectId (w w1 : World Env Timeline)
    allMedia :
  loadAllMediaFiles projectId w = (Ok allMedia, w1) ->
  let reqs := map (fun media => delete_media_request (m_id media)) allMedia in
  let pending := (answers reqs (env w1)).1 in
  let settled := map (outcome pending) completion in
  let r := deleteProjectMedia completion projectId w in
  requests r.2 = requests w1 ++ reqs ∧
  r.1 = match first_rejection settled with
        | Some error => Throw error
        | None => Ok tt
        end ∧
  (Forall (fun res => is_Some (rejection res)) pending ->
   is_Some (first_rejection settled) ->
   db_media r.2 = db_media w1) ∧
  (first_rejection settled = None -> idb_faults w1 = [] ->
   db_media r.2 !! projectId = None).
Proof.
  intros Hload reqs pending settled r. subst r.
  unfold deleteProjectMedia, deleteMediaFile_all.
  rewrite bind_run, Hload, !bind_run.
  destruct (send_all allMedia w1) as (w2 & Hsend & Hreq & Hf & Hdb).
  rewrite Hsend. cbv beta iota. fold reqs pending.
  destruct (settle_all projectId pending completion w2)
    as (w3 & Hsettle & Hreq3 & Hf3 & Hsame).
  rewrite Hsettle. cbv beta iota. fold settled.
  destruct (first_rejection settled) as [error|]; unfold throw; simpl.
  - split; [by rewrite Hreq3, Hreq|]. split; [done|]. split; [|done].
    intros Hall _. by rewrite Hsame.
  - rewrite cache_invalidate_requests.
    destruct (cache_invalidate_ok mediaCache projectId w3) as [Hr _].
    split; [by rewrite Hreq3, Hreq|]. split; [done|].
    split; [by intros _ []|].
    intros _ Hw1.
    apply (cache_invalidate_healthy mediaCache projectId w3).
    apply Hf3. congruence.
Qed.

(** ** Saving and loading a project *)

Lemma toISOString_run d (w w' : World Env Timeline) s :
  toISOString d w = (Ok s, w') ->
  w' = w ∧ exists t, d = ValidDate t ∧ s = iso_format t.
Proof.
  destruct d as [t|]; unfold toISOString, throw, mret, M_ret; intros H;
    simplify_eq. eauto.
Qed.

Lemma serialize_scene_run scene (w w' : World Env Timeline) s :
  serialize_scene scene w = (Ok s, w') ->
  w' = w ∧ (Forall round_trips (scene_dates scene) ->
            deserialize_scene s = scene).
Proof.
  unfold serialize_scene. rewrite bind_run.
  destruct (toISOString (scene_createdAt scene) w) as [[c|e] w1] eqn:Hc;
    [|done].
  apply toISOString_run in Hc as (-> & tc & Hc & ->).
  rewrite bind_run.
  destruct (toISOString (scene_updatedAt scene) w) as [[u|e] w1] eqn:Hu;
    [|done].
  apply toISOString_run in Hu as (-> & tu & Hu & ->).
  unfold mret, M_ret. intros H. simplify_eq. split; [done|].
  unfold scene_dates. rewrite Hc, Hu. intros Hrt.
  apply Forall_cons in Hrt as [Hrc Hrt]. apply Forall_cons in Hrt as [Hru _].
  unfold deserialize_scene. simpl in *. rewrite Hrc, Hru.
  destruct scene. simpl in *. by subst.
Qed.

Lemma serialize_scenes_run scenes (w w' : World Env Timeline) ss :
  mapM serialize_scene scenes w = (Ok ss, w') ->
  w' = w ∧ (Forall round_trips (flat_map scene_dates scenes) ->
            map deserialize_scene ss = scenes).
Proof.
  revert ss w'. induction scenes as [|scene scenes IH]; intros ss w'.
  - simpl. unfold mret, M_ret. intros H. by simplify_eq.
  - rewrite mapM_cons_run.
    destruct (serialize_scene scene w) as [[s|e] w1] eqn:Hs; [|done].
    apply serialize_scene_run in Hs as [-> Hs].
    destruct (mapM serialize_scene scenes w) as [[k|e] w2] eqn:Hk; [|done].
    destruct (IH k w2 eq_refl) as [-> Hk']. intros H. simplify_eq.
    split; [done|]. intros Hrt.
    change (flat_map scene_dates (scene :: scenes))
      with (scene_dates scene ++ flat_map scene_dates scenes) in Hrt.
    apply Forall_app in Hrt as [H1 H2]. simpl. by rewrite Hs, Hk'.
Qed.

(** What [saveProject] hands to the adapter is a project that [loadProject]
    converts back to the one saved. *)
Lemma serialize_project_run project (w w' : World Env Timeline) sp :
  serialize_project project w = (Ok sp, w') ->
  w' = w ∧ sp_id sp = p_id project ∧
  (Forall round_trips (project_dates project) ->
   deserialize_project sp = project).
Proof.
  unfold serialize_project. rewrite bind_run.
  destruct (mapM serialize_scene (p_scenes project) w) as [[ss|e] w1] eqn:Hss;
    [|done].
  apply serialize_scenes_run in Hss as [-> Hss].
  rewrite bind_run.
  destruct (toISOString (p_createdAt project) w) as [[c|e] w1] eqn:Hc;
    [|done].
  apply toISOString_run in Hc as (-> & tc & Hc & ->).
  rewrite bind_run.
  destruct (toISOString (p_updatedAt project) w) as [[u|e] w1] eqn:Hu;
    [|done].
  apply toISOString_run in Hu as (-> & tu & Hu & ->).
  unfold mret, M_ret. intros H. simplify_eq. split; [done|]. split; [done|].
  unfold project_dates. rewrite Hc, Hu. intros Hrt.
  apply Forall_cons in Hrt as [Hrc Hrt]. apply Forall_cons in Hrt as [Hru Hrt].
  unfold deserialize_project. simpl in *. rewrite Hrc, Hru, (Hss Hrt).
  destruct project. simpl in *. by subst.
Qed.

(** C7. Assume the remote adapter returns what was stored, and that the
    dates of the project survive the conversion to an ISO string and
    back. If [saveProject] of a project succeeds, [loadProject] of its id,
    run next, returns that project: the same scenes, the same
    [currentSceneId] and the same value in every other field. *)
Theorem save_load_round_trip project (w w1 : World Env Timeline) :
  adapter_returns_stored Env Timeline ->
  Forall round_trips (project_dates project) ->
  saveProject project w = (Ok tt, w1) ->
  exists w2, loadProject (p_id project) w1 = (Ok (Some project), w2).
Proof.
  intros Hstored Hdates. unfold saveProject. rewrite bind_run.
  destruct (serialize_project project w) as [[sp|e] w0] eqn:Hsp; [|done].
  apply serialize_project_run in Hsp as (-> & Hid & Hback).
  rewrite <- Hid. intros Hset.
  destruct (Hstored w w1 sp Hset) as [w2 Hget].
  exists w2. unfold loadProject. rewrite bind_run, Hget.
  unfold mret, M_ret. by rewrite Hback.
Qed.


(** * More properties *)

(** ** Reads served by the cache *)

Lemma loadAllMediaFiles_hit projectId entry (w : World Env Timeline) :
  idb_faults w = [] ->
  db MediaStore w !! projectId = Some entry ->
  Date_now (env w) - timestamp entry <= ttl mediaCache ->
  loadAllMediaFiles projectId w = (Ok (map media_file_of (data entry)), w).
Proof.
  intros Hw Hk Ht. unfold loadAllMediaFiles. rewrite bind_run.
  rewrite (cache_get_fresh mediaCache projectId entry w) by done.
  by unfold_monad.
Qed.

Lemma loadTimeline_hit sceneId entry (w : World Env Timeline) :
  idb_faults w = [] ->
  db TimelinesStore w !! sceneId = Some entry ->
  Date_now (env w) - timestamp entry <= ttl timelinesCache ->
  loadTimeline sceneId w = (Ok (Some (data entry)), w).
Proof.
  intros Hw Hk Ht. unfold loadTimeline. rewrite bind_run.
  rewrite (cache_get_fresh timelinesCache sceneId entry w) by done.
  by unfold_monad.
Qed.

(** X1. With the store's requests succeeding and an entry for the key
    that is at most the TTL old (300000 ms for media, 60000 ms for
    timelines), [loadAllMediaFiles] and [loadTimeline] return the data of
    the entry, an empty list included, and leave the world as it is: no
    request is sent and nothing is written. *)
Theorem fresh_entry_served_locally key (w : World Env Timeline) :
  idb_faults w = [] ->
  (forall entry,
     db MediaStore w !! key = Some entry ->
     Date_now (env w) - timestamp entry <= 300000 ->
     loadAllMediaFiles key w = (Ok (map media_file_of (data entry)), w)) ∧
  (forall entry,
     db TimelinesStore w !! key = Some entry ->
     Date_now (env w) - timestamp entry <= 60000 ->
     loadTimeline key w = (Ok (Some (data entry)), w)).
Proof.
  intros Hw. split; intros entry Hk Ht.
  - by apply loadAllMediaFiles_hit.
  - by apply loadTimeline_hit.
Qed.

(** X2. Cache-aside refill. Let a read miss the cache and the remote
    answer with a non-empty list at a time [t] (the store's requests
    succeeding). In any later world where the store still works, the
    entry for the key is the one that read wrote, and the clock is at most
    [t] plus the TTL, the same read returns the same list and leaves the
    world as it is: it sends no request. *)
Theorem refill_then_hit :
  (forall projectId (w w' : World Env Timeline) response e' d,
     idb_faults w = [] ->
     (cache_get mediaCache projectId w).1 = Ok None ->
     fetch_env (list_media_request projectId) (env w) = (inr response, e') ->
     resp_ok response = true ->
     resp_json response = Some d ->
     default [] (json_media d) ≠ [] ->
     idb_faults w' = [] ->
     db MediaStore w' !! projectId
       = db MediaStore (loadAllMediaFiles projectId w).2 !! projectId ->
     Date_now (env w') <= Date_now e' + 300000 ->
     loadAllMediaFiles projectId w'
       = ((loadAllMediaFiles projectId w).1, w') ∧
     (loadAllMediaFiles projectId w).1
       = Ok (map media_file_of (default [] (json_media d)))) ∧
  (forall sceneId (w w' : World Env Timeline) response e' d,
     idb_faults w = [] ->
     (cache_get timelinesCache sceneId w).1 = Ok None ->
     fetch_env (load_timeline_request sceneId) (env w) = (inr response, e') ->
     resp_ok response = true ->
     resp_json response = Some d ->
     default [] (json_tracks d) ≠ [] ->
     idb_faults w' = [] ->
     db TimelinesStore w' !! sceneId
       = db TimelinesStore (loadTimeline sceneId w).2 !! sceneId ->
     Date_now (env w') <= Date_now e' + 60000 ->
     loadTimeline sceneId w' = ((loadTimeline sceneId w).1, w') ∧
     (loadTimeline sceneId w).1 = Ok (Some (default [] (json_tracks d)))).
Proof.
  split.
  - intros projectId w w' response e' d Hw Hmiss Hfetch Hok Hjson Hne Hw' Hk Ht.
    rewrite (loadAllMediaFiles_miss projectId w response e' d) in * by done.
    destruct (default [] (json_media d)) as [|m media] eqn:Hmedia; [done|].
    simpl in Hk. rewrite lookup_insert_eq in Hk. simpl.
    rewrite (loadAllMediaFiles_hit projectId _ w' Hw' Hk) by (simpl; lia).
    done.
  - intros sceneId w w' response e' d Hw Hmiss Hfetch Hok Hjson Hne Hw' Hk Ht.
    destruct (loadTimeline_miss sceneId w response e' Hw Hmiss Hfetch)
      as [_ Hsucc].
    rewrite (Hsucc Hok d Hjson) in *.
    destruct (default [] (json_tracks d)) as [|m found] eqn:Hfound; [done|].
    simpl in Hk. rewrite lookup_insert_eq in Hk. simpl.
    rewrite (loadTimeline_hit sceneId _ w' Hw' Hk) by (simpl; lia).
    done.
Qed.

(** ** Saving a timeline *)

(** What [saveTimeline] does, by how its request settles. *)
Lemma saveTimeline_run sceneId found (w : World Env Timeline) res e' :
  fetch_env (save_timeline_request sceneId found) (env w) = (res, e') ->
  let sent :=
    add_event (EvFetch (save_timeline_request sceneId found)) (set_env e' w) in
  saveTimeline sceneId found w =
    match res with
    | inl error => (Throw error, sent)
    | inr response =>
        if resp_ok response then cache_set timelinesCache sceneId found 1 sent
        else (Throw (MkError ("Failed to save timeline: "
                                +:+ resp_statusText response)), sent)
    end.
Proof.
  intros Hfetch. unfold saveTimeline, fetch, await_response. unfold_monad.
  rewrite Hfetch. destruct res as [error|response]; simpl; [done|].
  by destruct (resp_ok response).
Qed.

(** X3. Write-through. When the remote accepts the timeline (the store's
    requests succeeding), [saveTimeline] stores the tracks it was given,
    an empty list included, stamped with the time of the write; and in any
    later world where the store works, that entry is still the one for the
    scene and at most 60000 ms have passed, [loadTimeline] returns those
    tracks and leaves the world as it is: it sends no request. *)
Theorem saveTimeline_then_loadTimeline sceneId found (w : World Env Timeline)
    response e' :
  idb_faults w = [] ->
  fetch_env (save_timeline_request sceneId found) (env w)
    = (inr response, e') ->
  resp_ok response = true ->
  let after := (saveTimeline sceneId found w).2 in
  (saveTimeline sceneId found w).1 = Ok tt ∧
  db TimelinesStore after !! sceneId
    = Some {| data := found; timestamp := Date_now e'; version := 1 |} ∧
  forall w' : World Env Timeline,
    idb_faults w' = [] ->
    db TimelinesStore w' !! sceneId = db TimelinesStore after !! sceneId ->
    Date_now (env w') <= Date_now e' + 60000 ->
    loadTimeline sceneId w' = (Ok (Some found), w').
Proof.
  intros Hw Hfetch Hok after. subst after.
  rewrite (saveTimeline_run sceneId found w _ e' Hfetch), Hok.
  rewrite cache_set_ok by done. simpl. rewrite lookup_insert_eq.
  split; [done|]. split; [done|].
  intros w' Hw' Hk Ht.
  by rewrite (loadTimeline_hit sceneId _ w' Hw' Hk) by (simpl; lia).
Qed.

(** X4. When the request of [saveTimeline] is rejected, or answered with
    a status that is not a success, [saveTimeline] throws (the rejection,
    or an error with the status text), has sent that one request, and
    leaves both caches as they were. *)
Theorem saveTimeline_remote_failure sceneId found (w : World Env Timeline) :
  let r := saveTimeline sceneId found w in
  let failure :=
    match (fetch_env (save_timeline_request sceneId found) (env w)).1 with
    | inl error => Some error
    | inr response =>
        if resp_ok response then None
        else Some (MkError ("Failed to save timeline: "
                              +:+ resp_statusText response))
    end in
  requests r.2 = requests w ++ [save_timeline_request sceneId found] ∧
  forall error, failure = Some error ->
    r.1 = Throw error ∧
    db_timelines r.2 = db_timelines w ∧ db_media r.2 = db_media w.
Proof.
  intros r failure. subst r failure.
  destruct (fetch_env (save_timeline_request sceneId found) (env w))
    as [res e'] eqn:Hfetch.
  rewrite (saveTimeline_run sceneId found w res e' Hfetch). simpl.
  destruct res as [err|response]; simpl.
  - split; [by rewrite requests_add_event|]. intros error H. by simplify_eq.
  - destruct (resp_ok response); simpl.
    + split; [|done].
      unfold cache_set, idb_set, idb_request. unfold_monad. simpl.
      destruct (idb_faults w) as [|[] fs]; simpl; by trace_simpl.
    + split; [by rewrite requests_add_event|]. intros error H.
      by simplify_eq.
Qed.

(** ** The cache adapter on a failing store *)

(** X5. When the next request to the store fails: [get] and
    [getWithMetadata] return null, [has] returns false, [getRemainingTTL]
    returns -1 and [invalidate] returns normally, none of them throwing;
    [set] and [clear] throw the store's error; and no operation changes
    the store. *)
Theorem cache_on_failing_store {T} (c : CacheAdapter T) key d ver fs
    (w : World Env Timeline) :
  idb_faults w = true :: fs ->
  (cache_get c key w).1 = Ok None ∧
  (cache_getWithMetadata c key w).1 = Ok None ∧
  (cache_has c key w).1 = Ok false ∧
  (cache_getRemainingTTL c key w).1 = Ok (-1) ∧
  (cache_invalidate c key w).1 = Ok tt ∧
  (cache_set c key d ver w).1 = Throw idb_error ∧
  (cache_clear c w).1 = Throw idb_error ∧
  Forall (fun w' => db (idbAdapter c) w' = db (idbAdapter c) w)
    [(cache_get c key w).2; (cache_getWithMetadata c key w).2;
     (cache_has c key w).2; (cache_getRemainingTTL c key w).2;
     (cache_invalidate c key w).2; (cache_set c key d ver w).2;
     (cache_clear c w).2].
Proof.
  intros Hw. revert d. destruct c as [[] t]; intros d;
    unfold cache_has, cache_get, cache_getWithMetadata, cache_getRemainingTTL,
      cache_invalidate, cache_set, cache_clear, idb_get, idb_set, idb_remove,
      idb_clear, idb_request; unfold_monad; simpl; rewrite Hw; simpl;
    repeat split; repeat constructor.
Qed.

(** X6. When the read of a stale entry succeeds and the removal that
    follows fails, [get] still returns null, and the stale entry stays in
    the store. *)
Theorem cache_get_failed_eviction {T} (c : CacheAdapter T) key entry fs
    (w : World Env Timeline) :
  idb_faults w = false :: true :: fs ->
  db (idbAdapter c) w !! key = Some entry ->
  Date_now (env w) - timestamp entry > ttl c ->
  (cache_get c key w).1 = Ok None ∧
  db (idbAdapter c) (cache_get c key w).2 = db (idbAdapter c) w.
Proof.
  intros Hw. revert entry. destruct c as [[] t]; intros entry Hk Ht;
    unfold cache_get, idb_get, idb_remove, idb_request; unfold_monad;
    simpl in *; rewrite Hw; simpl; rewrite Hk; simpl;
    (destruct (Z.gtb_spec (Date_now (env w) - timestamp entry) t); [|lia]);
    done.
Qed.

(** ** Failures of the cache seen by the caller *)

(** X7. A failure of the cache write is not absorbed: when the remote has
    accepted the timeline and the write to the store fails,
    [saveTimeline] throws the store's error; when a read has missed, the
    remote has answered with a non-empty list and the write of that list
    fails, [loadAllMediaFiles] and [loadTimeline] throw the store's error
    instead of returning the list. *)
Theorem cache_write_failure_surfaces :
  (forall sceneId found (w : World Env Timeline) response e' fs,
     idb_faults w = true :: fs ->
     fetch_env (save_timeline_request sceneId found) (env w)
       = (inr response, e') ->
     resp_ok response = true ->
     (saveTimeline sceneId found w).1 = Throw idb_error) ∧
  (forall projectId (w : World Env Timeline) response e' d fs,
     db MediaStore w !! projectId = None ->
     idb_faults w = false :: true :: fs ->
     fetch_env (list_media_request projectId) (env w) = (inr response, e') ->
     resp_ok response = true ->
     resp_json response = Some d ->
     default [] (json_media d) ≠ [] ->
     (loadAllMediaFiles projectId w).1 = Throw idb_error) ∧
  (forall sceneId (w : World Env Timeline) response e' d fs,
     db TimelinesStore w !! sceneId = None ->
     idb_faults w = false :: true :: fs ->
     fetch_env (load_timeline_request sceneId) (env w) = (inr response, e') ->
     resp_ok response = true ->
     resp_json response = Some d ->
     default [] (json_tracks d) ≠ [] ->
     (loadTimeline sceneId w).1 = Throw idb_error).
Proof.
  split; [|split].
  - intros sceneId found w response e' fs Hw Hfetch Hok.
    rewrite (saveTimeline_run sceneId found w _ e' Hfetch), Hok.
    unfold cache_set, idb_set, idb_request. unfold_monad. simpl.
    by rewrite Hw.
  - intros projectId w response e' d fs Hk Hw Hfetch Hok Hjson Hne.
    unfold_service. unfold_monad. simpl in *.
    rewrite Hw. simpl. rewrite Hk. simpl. rewrite Hfetch. simpl.
    rewrite Hok, Hjson. simpl.
    destruct (default [] (json_media d)); [done|]. by simpl.
  - intros sceneId w response e' d fs Hk Hw Hfetch Hok Hjson Hne.
    unfold_service. unfold_monad. simpl in *.
    rewrite Hw. simpl. rewrite Hk. simpl. rewrite Hfetch. simpl.
    rewrite bool_decide_false.
    2:{ unfold resp_ok in Hok. intros E. rewrite E in Hok. done. }
    rewrite Hok, Hjson. simpl.
    destruct (default [] (json_tracks d)); [done|]. by simpl.
Qed.

(** ** One key at a time *)

(** X8. Whatever the store does, an operation of the cache adapter on one
    key leaves the entry of every other key of its store as it was:
    [get], [getWithMetadata], [has] and [getRemainingTTL] (also when they
    evict), [set] and [invalidate]. *)
Theorem cache_other_keys_untouched {T} (c : CacheAdapter T) key key' d ver
    (w : World Env Timeline) :
  key ≠ key' ->
  Forall (fun w' => db (idbAdapter c) w' !! key' = db (idbAdapter c) w !! key')
    [(cache_get c key w).2; (cache_getWithMetadata c key w).2;
     (cache_has c key w).2; (cache_getRemainingTTL c key w).2;
     (cache_set c key d ver w).2; (cache_invalidate c key w).2].
Proof.
  intros Hne. revert d. destruct c as [[] t]; intros d;
    unfold cache_has, cache_get, cache_getWithMetadata, cache_getRemainingTTL,
      cache_invalidate, cache_set, idb_get, idb_set, idb_remove, idb_request;
    unfold_monad; simpl;
    repeat constructor;
    repeat (case_match; simplify_eq/=; try done);
    by rewrite ?lookup_insert_ne, ?lookup_delete_ne.
Qed.

(** ** The remaining time of an entry *)

(** X9. On a working store, [getRemainingTTL] changes nothing and returns
    -1 for a key with no entry, the TTL minus the age of the entry while
    the age is below the TTL, and -1 from then on. At an age equal to the
    TTL it returns -1 while [get] still returns the data. *)
Theorem getRemainingTTL_values {T} (c : CacheAdapter T) key
    (w : World Env Timeline) :
  idb_faults w = [] ->
  (db (idbAdapter c) w !! key = None ->
   cache_getRemainingTTL c key w = (Ok (-1), w)) ∧
  (forall entry,
     db (idbAdapter c) w !! key = Some entry ->
     let age := Date_now (env w) - timestamp entry in
     cache_getRemainingTTL c key w
       = (Ok (if age <? ttl c then ttl c - age else -1), w) ∧
     (age = ttl c ->
      cache_getRemainingTTL c key w = (Ok (-1), w) ∧
      cache_get c key w = (Ok (Some (data entry)), w))).
Proof.
  intros Hw. split.
  - intros Hk. unfold cache_getRemainingTTL. unfold_monad.
    by rewrite idb_get_ok, Hk.
  - intros entry Hk age.
    assert (Hrun : cache_getRemainingTTL c key w
                   = (Ok (if age <? ttl c then ttl c - age else -1), w)).
    { unfold cache_getRemainingTTL. unfold_monad.
      rewrite idb_get_ok, Hk by done. simpl. fold age.
      destruct (Z.gtb_spec (ttl c - age) 0), (Z.ltb_spec age (ttl c));
        (done || lia). }
    split; [done|]. intros Hage. rewrite Hrun.
    rewrite (cache_get_fresh c key entry w) by (done || (fold age; lia)).
    split; [|done]. by rewrite Hage, Z.ltb_irrefl.
Qed.

(** ** Deleting a media file and the cache *)

(** X10. With the store's requests succeeding: when the remote answers
    the DELETE of [deleteMediaFile] with a success or 404, the media cache
    loses the entry of the project and keeps every other one, so the next
    [loadAllMediaFiles] of the project asks the remote again; when the
    request is rejected or answered otherwise, the media cache is left as
    it was. The timelines cache is never touched. *)
Theorem deleteMediaFile_cache projectId id (w : World Env Timeline) :
  idb_faults w = [] ->
  let after := (deleteMediaFile projectId id w).2 in
  db_timelines after = db_timelines w ∧
  match (fetch_env (delete_media_request id) (env w)).1 with
  | inl _ => db_media after = db_media w
  | inr response =>
      if negb (resp_ok response)
         && negb (bool_decide (resp_status response = 404))
      then db_media after = db_media w
      else
        db_media after = delete projectId (db_media w) ∧
        requests (loadAllMediaFiles projectId after).2
          = requests after ++ [list_media_request projectId]
  end.
Proof.
  intros Hw after. subst after.
  unfold deleteMediaFile, deleteMediaFile_resume, fetch, await_response.
  unfold_monad.
  destruct (fetch_env (delete_media_request id) (env w)) as [[err|response] e'];
    simpl; [done|].
  destruct (_ && _); simpl; [done|].
  unfold cache_invalidate. unfold_monad.
  rewrite idb_remove_ok by done. simpl. split; [done|]. split; [done|].
  apply loadAllMediaFiles_refetch. simpl. apply lookup_delete_eq.
Qed.

(** ** Looking up one media file *)

(** X11. [loadMediaFile] does to the world what [loadAllMediaFiles] does,
    and throws what it throws. When that returns a list, [loadMediaFile]
    returns the first item of the list with the id asked for, and null
    exactly when the list has no item with that id. *)
Theorem loadMediaFile_finds_by_id projectId id (w : World Env Timeline) :
  (loadMediaFile projectId id w).2 = (loadAllMediaFiles projectId w).2 ∧
  match (loadAllMediaFiles projectId w).1 with
  | Throw error => (loadMediaFile projectId id w).1 = Throw error
  | Ok allMedia =>
      match (loadMediaFile projectId id w).1 with
      | Ok (Some media) =>
          exists before rest,
            allMedia = before ++ media :: rest ∧ m_id media = id ∧
            Forall (fun item => m_id item ≠ id) before
      | Ok None => Forall (fun item => m_id item ≠ id) allMedia
      | Throw _ => False
      end
  end.
Proof.
  unfold loadMediaFile. rewrite bind_run.
  destruct (loadAllMediaFiles projectId w) as [[allMedia|error] w1]; simpl;
    [|done].
  split; [done|].
  induction allMedia as [|item allMedia IH]; simpl; [done|].
  case_bool_decide as Hid.
  - exists [], allMedia. by repeat split.
  - destruct (find _ allMedia) as [media|].
    + destruct IH as (before & rest & -> & Hm & Hbefore).
      exists (item :: before), rest. repeat split; [done|].
      by constructor.
    + by constructor.
Qed.

(** ** Saving a project with an invalid date *)

Lemma serialize_scene_cases scene (w : World Env Timeline) :
  serialize_scene scene w =
    (match scene_createdAt scene, scene_updatedAt scene with
     | ValidDate c, ValidDate u =>
         Ok {| sscene_id := scene_id scene; sscene_name := scene_name scene;
               sscene_isMain := scene_isMain scene;
               sscene_createdAt := iso_format c;
               sscene_updatedAt := iso_format u |}
     | _, _ => Throw range_error
     end, w).
Proof.
  unfold serialize_scene. rewrite !bind_run.
  destruct (scene_createdAt scene); simpl; [|done].
  rewrite bind_run. by destruct (scene_updatedAt scene).
Qed.

Lemma serialize_scenes_cases scenes (w : World Env Timeline) :
  (mapM serialize_scene scenes w).2 = w ∧
  (InvalidDate ∈ flat_map scene_dates scenes ->
   (mapM serialize_scene scenes w).1 = Throw range_error) ∧
  (InvalidDate ∉ flat_map scene_dates scenes ->
   exists ss, (mapM serialize_scene scenes w).1 = Ok ss).
Proof.
  induction scenes as [|scene scenes (IHw & IHbad & IHgood)].
  - split; [done|]. split; [by intros ?%elem_of_nil|]. by exists [].
  - assert (Hdates : InvalidDate ∈ flat_map scene_dates (scene :: scenes) <->
                     scene_createdAt scene = InvalidDate
                     ∨ scene_updatedAt scene = InvalidDate
                     ∨ InvalidDate ∈ flat_map scene_dates scenes).
    { change (flat_map scene_dates (scene :: scenes))
        with (scene_dates scene ++ flat_map scene_dates scenes).
      unfold scene_dates at 1.
      rewrite elem_of_app, !elem_of_cons, elem_of_nil. naive_solver. }
    rewrite mapM_cons_run, serialize_scene_cases, !Hdates. clear Hdates.
    destruct (scene_createdAt scene) as [c|]; [|simpl; naive_solver].
    destruct (scene_updatedAt scene) as [u|]; [|simpl; naive_solver].
    destruct (mapM serialize_scene scenes w) as [[k|e] w1]; simpl in *;
      subst w1.
    + split; [done|]. split; [naive_solver|]. by eauto.
    + split; [done|]. split; [|naive_solver].
      intros _.
      destruct (decide (InvalidDate ∈ flat_map scene_dates scenes)) as [H|H].
      * by apply IHbad.
      * by destruct (IHgood H).
Qed.

(** X12. A project with an [Invalid Date] among its dates or those of its
    scenes cannot be saved: [saveProject] throws a [RangeError] and leaves
    the world as it is; no request is sent. *)
Theorem saveProject_invalid_date project (w : World Env Timeline) :
  InvalidDate ∈ project_dates project ->
  saveProject project w = (Throw range_error, w).
Proof.
  intros Hin. unfold saveProject, serialize_project. rewrite !bind_run.
  destruct (serialize_scenes_cases (p_scenes project) w)
    as (Hw & Hbad & Hgood).
  destruct (decide (InvalidDate ∈ flat_map scene_dates (p_scenes project)))
    as [Hscenes|Hscenes].
  - specialize (Hbad Hscenes).
    destruct (mapM serialize_scene (p_scenes project) w) as [r w1].
    simpl in *. by subst.
  - destruct (Hgood Hscenes) as [ss Hss].
    destruct (mapM serialize_scene (p_scenes project) w) as [r w1].
    simpl in *. subst.
    unfold project_dates in Hin.
    apply elem_of_cons in Hin as [Hc|Hin].
    { by rewrite <- Hc. }
    apply elem_of_cons in Hin as [Hu|Hin]; [|done].
    rewrite <- Hu. rewrite bind_run. by destruct (p_createdAt project).
Qed.

(** ** What a computation leaves alone *)

Lemma keeps_stores_ret {A} (a : A) : keeps_stores (Env := Env) (Timeline := Timeline) (mret a : @M Env Timeline A).
Proof. by intros w. Qed.

Lemma keeps_stores_throw {A} e : keeps_stores (Env := Env) (Timeline := Timeline) (throw e : @M Env Timeline A).
Proof. by intros w. Qed.

Lemma keeps_stores_bind {A B} (m : @M Env Timeline A) (f : A -> @M Env Timeline B) :
  keeps_stores m -> (forall a, keeps_stores (Env := Env) (Timeline := Timeline) (f a)) -> keeps_stores (Env := Env) (Timeline := Timeline) (m ≫= f).
Proof.
  intros Hm Hf w. rewrite bind_run. destruct (Hm w) as [H1 H2].
  destruct (m w) as [[a|e] w1]; simpl in *; [|done].
  destruct (Hf a w1) as [H3 H4]. split; congruence.
Qed.

Lemma keeps_stores_try_catch {A} (m : @M Env Timeline A) (h : JsError -> @M Env Timeline A) :
  keeps_stores m -> (forall e, keeps_stores (Env := Env) (Timeline := Timeline) (h e)) ->
  keeps_stores (Env := Env) (Timeline := Timeline) (try_catch m h).
Proof.
  intros Hm Hh w. unfold try_catch. destruct (Hm w) as [H1 H2].
  destruct (m w) as [[a|e] w1]; simpl in *; [done|].
  destruct (Hh e w1) as [H3 H4]. split; congruence.
Qed.

Lemma keeps_stores_emit ev :
  keeps_stores (Env := Env) (Timeline := Timeline) (emit ev : @M Env Timeline unit).
Proof. by intros w. Qed.

Lemma keeps_stores_fetch r : keeps_stores (Env := Env) (Timeline := Timeline) (fetch r).
Proof. intros w. unfold fetch. by destruct (fetch_env r (env w)). Qed.

Lemma keeps_stores_idb {A} (op : World Env Timeline -> A * World Env Timeline) :
  (forall w, mediaFiles (op w).2 = mediaFiles w ∧
             timeline (op w).2 = timeline w) ->
  keeps_stores (Env := Env) (Timeline := Timeline) (idb_request op).
Proof.
  intros Hop w. unfold idb_request.
  destruct (idb_faults w) as [|[] fs]; simpl; [|done|].
  - destruct (Hop w). by destruct (op w).
  - destruct (Hop (set_faults fs w)). by destruct (op (set_faults fs w)).
Qed.

Lemma keeps_stores_settle {A} (m : @M Env Timeline A) :
  keeps_stores m -> keeps_stores (Env := Env) (Timeline := Timeline) (settle m).
Proof. intros Hm w. unfold settle. destruct (Hm w). by destruct (m w). Qed.

Lemma keeps_stores_mapM {A B} (f : A -> @M Env Timeline B) (l : list A) :
  (forall a, keeps_stores (Env := Env) (Timeline := Timeline) (f a)) -> keeps_stores (Env := Env) (Timeline := Timeline) (mapM f l).
Proof.
  intros Hf. induction l as [|a l IH]; intros w; [done|].
  rewrite mapM_cons_run. destruct (Hf a w) as [H1 H2].
  destruct (f a w) as [[b|e] w1]; simpl in *; [|done].
  destruct (IH w1) as [H3 H4].
  destruct (mapM f l w1) as [[k|e] w2]; simpl in *; split; congruence.
Qed.

Lemma keeps_stores_idb_get {T} (s : StoreName T) key :
  keeps_stores (Env := Env) (Timeline := Timeline) (idb_get s key).
Proof. by apply keeps_stores_idb. Qed.

Lemma keeps_stores_idb_set {T} (s : StoreName T) key entry :
  keeps_stores (Env := Env) (Timeline := Timeline) (idb_set s key entry).
Proof.
  apply keeps_stores_idb. intros w. simpl.
  by rewrite mediaFiles_set_db, timeline_set_db.
Qed.

Lemma keeps_stores_idb_remove {T} (s : StoreName T) key :
  keeps_stores (Env := Env) (Timeline := Timeline) (idb_remove s key).
Proof.
  apply keeps_stores_idb. intros w. simpl.
  by rewrite mediaFiles_set_db, timeline_set_db.
Qed.

Create HintDb keeps discriminated.

#[local] Hint Resolve keeps_stores_ret keeps_stores_throw keeps_stores_bind
  keeps_stores_try_catch keeps_stores_emit keeps_stores_fetch
  keeps_stores_settle keeps_stores_mapM keeps_stores_idb_get
  keeps_stores_idb_set keeps_stores_idb_remove : keeps.

Ltac keeps_step :=
  match goal with
  | |- keeps_stores (match ?x with _ => _ end) => destruct x
  | |- keeps_stores (if ?b then _ else _) => destruct b
  | |- keeps_stores (gets _) => by intros ?
  | |- keeps_stores (console_error _) => apply keeps_stores_emit
  | |- keeps_stores (await_response ?r) => destruct r; simpl
  | |- keeps_stores (response_json ?r) => unfold response_json
  | |- keeps_stores (now) => by intros ?
  | |- forall _, _ => intros
  | |- _ => progress eauto with keeps
  | |- keeps_stores (_ ≫= _) => apply keeps_stores_bind
  | |- keeps_stores (try_catch _ _) => apply keeps_stores_try_catch
  | |- keeps_stores (mapM _ _) => apply keeps_stores_mapM
  | |- keeps_stores (settle _) => apply keeps_stores_settle
  | |- keeps_stores (mret _) => apply keeps_stores_ret
  | |- keeps_stores (throw _) => apply keeps_stores_throw
  end.

Lemma keeps_stores_cache_get {T} (c : CacheAdapter T) key :
  keeps_stores (Env := Env) (Timeline := Timeline) (cache_get c key).
Proof. unfold cache_get. repeat keeps_step. Qed.

Lemma keeps_stores_cache_set {T} (c : CacheAdapter T) key d ver :
  keeps_stores (Env := Env) (Timeline := Timeline) (cache_set c key d ver).
Proof. unfold cache_set. repeat keeps_step. Qed.

Lemma keeps_stores_cache_invalidate {T} (c : CacheAdapter T) key :
  keeps_stores (Env := Env) (Timeline := Timeline) (cache_invalidate c key).
Proof. unfold cache_invalidate. repeat keeps_step. Qed.

#[local] Hint Resolve keeps_stores_cache_get keeps_stores_cache_set
  keeps_stores_cache_invalidate : keeps.

Lemma keeps_stores_loadAllMediaFiles projectId :
  keeps_stores (Env := Env) (Timeline := Timeline) (loadAllMediaFiles projectId).
Proof. unfold loadAllMediaFiles. repeat keeps_step. Qed.

Lemma keeps_stores_deleteMediaFile_resume projectId res :
  keeps_stores (Env := Env) (Timeline := Timeline) (deleteMediaFile_resume projectId res).
Proof. unfold deleteMediaFile_resume. repeat keeps_step. Qed.

#[local] Hint Resolve keeps_stores_loadAllMediaFiles
  keeps_stores_deleteMediaFile_resume : keeps.

Lemma keeps_stores_deleteProjectMedia completion projectId :
  keeps_stores (Env := Env) (Timeline := Timeline) (deleteProjectMedia completion projectId).
Proof.
  unfold deleteProjectMedia, deleteMediaFile_all. repeat keeps_step.
Qed.

(** [try { await m } catch (error) { console.error(...) }] does not
    throw. *)
Lemma caught_no_throw (m : @M Env Timeline unit) msg (w : World Env Timeline) :
  (try_catch m (fun error => console_error msg) w).1 = Ok tt.
Proof. unfold try_catch. by destruct (m w) as [[[]|e] w1]. Qed.

(** X13. [clearProjectMedia] does not throw, whatever the remote and the
    store do and in whatever order the responses arrive; afterwards the
    media list of the store is empty, also when deletions failed, and the
    timeline store is as it was. *)
Theorem clearProjectMedia_empties_list completion projectId
    (w : World Env Timeline) :
  (clearProjectMedia completion projectId w).1 = Ok tt ∧
  mediaFiles (clearProjectMedia completion projectId w).2 = [] ∧
  timeline (clearProjectMedia completion projectId w).2 = timeline w.
Proof.
  pose (w1 := add_event EvSetMediaFiles (set_mediaFiles [] w)).
  pose (caught :=
          try_catch (deleteProjectMedia completion projectId)
            (fun error =>
               console_error "Failed to clear media items from storage:")
          : @M Env Timeline unit).
  assert (Hrun : clearProjectMedia completion projectId w = caught w1)
    by reflexivity.
  assert (Hk : keeps_stores caught).
  { apply keeps_stores_try_catch; [apply keeps_stores_deleteProjectMedia|].
    intros e. apply keeps_stores_emit. }
  rewrite Hrun. destruct (Hk w1) as [Hm Ht].
  split; [apply caught_no_throw|]. by rewrite Hm, Ht.
Qed.

(** ** Projects are read from the remote *)

Lemma keeps_caches_ret {A} (a : A) :
  keeps_caches (Env := Env) (Timeline := Timeline) (mret a).
Proof. by intros w. Qed.

Lemma keeps_caches_throw {A} e :
  keeps_caches (Env := Env) (Timeline := Timeline) (throw e : @M Env Timeline A).
Proof. by intros w. Qed.

Lemma keeps_caches_bind {A B} (m : @M Env Timeline A) (f : A -> @M Env Timeline B) :
  keeps_caches m -> (forall a, keeps_caches (f a)) -> keeps_caches (m ≫= f).
Proof.
  intros Hm Hf w. rewrite bind_run. destruct (Hm w) as [H1 H2].
  destruct (m w) as [[a|e] w1]; simpl in *; [|done].
  destruct (Hf a w1) as [H3 H4]. split; congruence.
Qed.

Lemma keeps_caches_try_catch {A} (m : @M Env Timeline A) (h : JsError -> @M Env Timeline A) :
  keeps_caches m -> (forall e, keeps_caches (h e)) ->
  keeps_caches (try_catch m h).
Proof.
  intros Hm Hh w. unfold try_catch. destruct (Hm w) as [H1 H2].
  destruct (m w) as [[a|e] w1]; simpl in *; [done|].
  destruct (Hh e w1) as [H3 H4]. split; congruence.
Qed.

Lemma keeps_caches_emit ev :
  keeps_caches (Env := Env) (Timeline := Timeline) (emit ev).
Proof. by intros w. Qed.

Lemma keeps_caches_fetch r :
  keeps_caches (Env := Env) (Timeline := Timeline) (fetch r).
Proof. intros w. unfold fetch. by destruct (fetch_env r (env w)). Qed.

Ltac keeps_caches_step :=
  match goal with
  | |- keeps_caches (match ?x with _ => _ end) => destruct x
  | |- keeps_caches (if ?b then _ else _) => destruct b
  | |- keeps_caches (console_error _) => apply keeps_caches_emit
  | |- keeps_caches (await_response ?r) => destruct r; simpl
  | |- keeps_caches (response_json ?r) => unfold response_json
  | |- keeps_caches (fetch _) => apply keeps_caches_fetch
  | |- keeps_caches (mret _) => apply keeps_caches_ret
  | |- keeps_caches (throw _) => apply keeps_caches_throw
  | |- keeps_caches (_ ≫= _) => apply keeps_caches_bind
  | |- keeps_caches (try_catch _ _) => apply keeps_caches_try_catch
  | |- forall _, _ => intros
  end.

Lemma keeps_caches_remote_get a id :
  keeps_caches (Env := Env) (Timeline := Timeline) (remote_get a id).
Proof. unfold remote_get. repeat keeps_caches_step. Qed.

Lemma keeps_caches_remote_set a id value :
  keeps_caches (Env := Env) (Timeline := Timeline) (remote_set a id value).
Proof.
  unfold remote_set. apply keeps_caches_try_catch.
  - apply keeps_caches_bind; [apply keeps_caches_remote_get|].
    repeat keeps_caches_step.
  - repeat keeps_caches_step.
Qed.

Lemma keeps_caches_remote_remove a id :
  keeps_caches (Env := Env) (Timeline := Timeline) (remote_remove a id).
Proof. unfold remote_remove. repeat keeps_caches_step. Qed.

Lemma serialize_project_keeps project (w : World Env Timeline) :
  (serialize_project project w).2 = w.
Proof.
  unfold serialize_project. rewrite bind_run.
  destruct (serialize_scenes_cases (p_scenes project) w) as (Hw & _).
  destruct (mapM serialize_scene (p_scenes project) w) as [[ss|e] w1];
    simpl in *; subst; [|done].
  rewrite bind_run. destruct (p_createdAt project); simpl; [|done].
  rewrite bind_run. by destruct (p_updatedAt project).
Qed.

(** X14. Projects are not cached. [saveProject], [loadProject] and
    [deleteProject] leave both cache databases as they are, whatever
    happens; and every [loadProject] sends a GET for the project, and
    nothing else. *)
Theorem projects_bypass_the_cache project id (w : World Env Timeline) :
  Forall (fun w' => db_media w' = db_media w ∧ db_timelines w' = db_timelines w)
    [(saveProject project w).2; (loadProject id w).2; (deleteProject id w).2] ∧
  requests (loadProject id w).2 = requests w ++ [get_request projectsAdapter id].
Proof.
  assert (Hsave : keeps_caches (Env := Env) (Timeline := Timeline)
                    (saveProject project)).
  { apply keeps_caches_bind.
    - intros w0. by rewrite serialize_project_keeps.
    - intros sp. apply keeps_caches_remote_set. }
  assert (Hload : keeps_caches (Env := Env) (Timeline := Timeline)
                    (loadProject id)).
  { apply keeps_caches_bind; [apply keeps_caches_remote_get|].
    intros [sp|]; apply keeps_caches_ret. }
  split.
  - repeat (apply Forall_cons; split); [apply Hsave|apply Hload| |done].
    apply keeps_caches_remote_remove.
  - unfold loadProject. rewrite bind_run.
    pose proof (remote_get_requests projectsAdapter id w) as Hreq.
    by destruct (remote_get projectsAdapter id w) as [[[sp|]|e] w1].
Qed.


(** ** Failures of the adapter are logged *)

Lemma console_errors_add_event ev (w : World Env Timeline) :
  console_errors (add_event ev w)
    = console_errors w ++ match ev with
                          | EvConsoleError msg => [msg]
                          | _ => []
                          end.
Proof.
  unfold console_errors. simpl. rewrite omap_app. by destruct ev.
Qed.

Lemma console_errors_fetch r (w : World Env Timeline) :
  console_errors (fetch r w).2 = console_errors w.
Proof.
  unfold fetch. destruct (fetch_env r (env w)) as [res e'].
  simpl. rewrite console_errors_add_event. by rewrite app_nil_r.
Qed.

Lemma remote_get_logs a id :
  logs_failure (Env := Env) (Timeline := Timeline)
    "Failed to get project:" (remote_get a id).
Proof.
  intros w. pose proof (console_errors_fetch (get_request a id) w) as Hf.
  unfold remote_get, try_catch. rewrite bind_run.
  destruct (fetch (get_request a id) w) as [[res|e] w1]; simpl in *.
  2:{ exists []. by rewrite console_errors_add_event, Hf. }
  unfold await_response, response_json. unfold_monad.
  repeat (case_match; simplify_eq/=; try done);
    exists []; by rewrite console_errors_add_event, Hf.
Qed.

Lemma remote_remove_logs a id :
  logs_failure (Env := Env) (Timeline := Timeline)
    "Failed to delete project:" (remote_remove a id).
Proof.
  intros w. pose proof (console_errors_fetch (delete_request a id) w) as Hf.
  unfold remote_remove, try_catch. rewrite bind_run.
  destruct (fetch (delete_request a id) w) as [[res|e] w1]; simpl in *.
  2:{ exists []. by rewrite console_errors_add_event, Hf. }
  unfold await_response. unfold_monad.
  repeat (case_match; simplify_eq/=; try done);
    exists []; by rewrite console_errors_add_event, Hf.
Qed.

Lemma remote_write_logs what r (w : World Env Timeline) :
  let write : @M Env Timeline unit :=
    res ← fetch r;
    response ← await_response res;
    if negb (resp_ok response) then
      throw (MkError (what +:+ resp_statusText response))
    else mret tt in
  console_errors (write w).2 = console_errors w.
Proof.
  intros write. subst write. pose proof (console_errors_fetch r w) as Hf.
  rewrite bind_run.
  destruct (fetch r w) as [[res|e] w1]; simpl in *; [|done].
  unfold await_response. unfold_monad.
  by repeat (case_match; simplify_eq/=; try done).
Qed.

(** X16. The remote adapter never fails silently and never logs a success:
    when [get], [set] or [remove] returns, nothing was written to the
    console; when one throws, its last console message is its own
    ["Failed to ... project:"]. A [set] whose [get] throws rethrows that
    error and has logged twice, the message of [get] and then its own. *)
Theorem adapter_failures_logged a id value :
  logs_failure (Env := Env) (Timeline := Timeline)
    "Failed to get project:" (remote_get a id) ∧
  logs_failure (Env := Env) (Timeline := Timeline)
    "Failed to save project:" (remote_set a id value) ∧
  logs_failure (Env := Env) (Timeline := Timeline)
    "Failed to delete project:" (remote_remove a id) ∧
  forall (w : World Env Timeline) e,
    (remote_get a id w).1 = Throw e ->
    (remote_set a id value w).1 = Throw e ∧
    console_errors (remote_set a id value w).2
      = console_errors w
          ++ ["Failed to get project:"; "Failed to save project:"].
Proof.
  split; [apply remote_get_logs|]. split; [|split; [apply remote_remove_logs|]].
  - intros w. pose proof (remote_get_logs a id w) as Hg.
    unfold remote_set, try_catch. rewrite bind_run.
    destruct (remote_get a id w) as [[[existing|]|e] w1]; simpl in *.
    + pose proof (remote_write_logs "Failed to update project: "
                    (put_request a id value) w1) as Hw. simpl in Hw.
      match goal with
      | |- context [match ?m w1 with _ => _ end] =>
          change (m w1) with
            ((res ← fetch (put_request a id value);
              response ← await_response res;
              if negb (resp_ok response) then
                throw (MkError ("Failed to update project: "
                                  +:+ resp_statusText response))
              else mret tt) w1) in *
      end.
      match type of Hw with
      | console_errors (?run).2 = _ => destruct run as [[[]|e] w2]
      end; simpl in *.
      * congruence.
      * exists []. rewrite console_errors_add_event. simpl. congruence.
    + pose proof (remote_write_logs "Failed to create project: "
                    (post_request a value) w1) as Hw. simpl in Hw.
      match type of Hw with
      | console_errors (?run).2 = _ => destruct run as [[[]|e] w2]
      end; simpl in *.
      * congruence.
      * exists []. rewrite console_errors_add_event. simpl. congruence.
    + destruct Hg as [msgs Hg]. exists (msgs ++ ["Failed to get project:"]).
      rewrite console_errors_add_event, Hg. simpl.
      by rewrite <- !app_assoc.
  - intros w e Hthrow.
    assert (Hlog : console_errors (remote_get a id w).2
                   = console_errors w ++ ["Failed to get project:"]).
    { revert Hthrow. clear.
      pose proof (console_errors_fetch (get_request a id) w) as Hf.
      unfold remote_get, try_catch. rewrite bind_run.
      destruct (fetch (get_request a id) w) as [[res|e0] w1]; simpl in *.
      2:{ intros _. by rewrite console_errors_add_event, Hf. }
      unfold await_response, response_json. unfold_monad.
      repeat (case_match; simplify_eq/=; try done);
        intros _; by rewrite console_errors_add_event, Hf. }
    unfold remote_set, try_catch. rewrite bind_run.
    destruct (remote_get a id w) as [[r|e0] w1]; simpl in *; [done|].
    simplify_eq. split; [done|].
    rewrite console_errors_add_event, Hlog. simpl. by rewrite <- app_assoc.
Qed.

(** ** Deleting the timeline of a scene *)

(** X17. [deleteProjectTimeline] is local: it never throws and sends no
    request, so the timeline on the server stays; the media cache and the
    other entries of the timelines cache are left alone; and on a working
    store the entry of the scene is gone, so that the next [loadTimeline]
    asks the server. *)
Theorem deleteProjectTimeline_is_local sceneId (w : World Env Timeline) :
  let r := deleteProjectTimeline sceneId w in
  r.1 = Ok tt ∧ requests r.2 = requests w ∧ env r.2 = env w ∧
  db_media r.2 = db_media w ∧
  (forall key, key ≠ sceneId ->
     db_timelines r.2 !! key = db_timelines w !! key) ∧
  (idb_faults w = [] ->
   db_timelines r.2 !! sceneId = None ∧
   requests (loadTimeline sceneId r.2).2
     = requests w ++ [load_timeline_request sceneId]).
Proof.
  intros r. subst r.
  unfold deleteProjectTimeline, cache_invalidate, try_catch, idb_remove,
    idb_request. simpl.
  destruct (idb_faults w) as [|[] fs] eqn:Hfaults; simpl.
  - do 4 (split; [done|]). split.
    + intros key Hkey. by rewrite lookup_delete_ne.
    + intros _. split; [by rewrite lookup_delete_eq|].
      rewrite loadTimeline_refetch; [done|]. simpl. apply lookup_delete_eq.
  - split; [done|]. split.
    { unfold requests. simpl. by rewrite omap_app, app_nil_r. }
    by repeat split.
  - do 4 (split; [done|]). split; [|done].
    intros key Hkey. by rewrite lookup_delete_ne.
Qed.

End Properties.

(** * The cascade on the timeline store *)

Section Cascade.

Context {Env : Type} {outside : Outside Env}.

Lemma filter_ext_elem_of {A} (P Q : A -> Prop) `{!forall x, Decision (P x)}
    `{!forall x, Decision (Q x)} (l : list A) :
  (forall x, x ∈ l -> P x <-> Q x) -> filter P l = filter Q l.
Proof.
  induction l as [|a l IH]; intros Hext; [done|].
  rewrite !filter_cons.
  rewrite IH by (intros x Hx; apply Hext; by right).
  pose proof (Hext a (list_elem_of_here a l)) as Ha.
  destruct (decide (P a)), (decide (Q a)); tauto.
Qed.

Lemma elem_of_map_inj_on {A B} (f : A -> B) (l : list A) x y :
  NoDup (map f l) -> x ∈ l -> y ∈ l -> f x = f y -> x = y.
Proof.
  induction l as [|a l IH]; simpl; intros Hnd Hx Hy Hxy.
  - by apply elem_of_nil in Hx.
  - apply NoDup_cons in Hnd as [Ha Hnd].
    assert (Hin : forall z, z ∈ l -> f z ∈ map f l).
    { intros z Hz. apply list_elem_of_In, in_map, list_elem_of_In, Hz. }
    apply elem_of_cons in Hx as [->|Hx]; apply elem_of_cons in Hy as [->|Hy].
    + done.
    + destruct Ha. rewrite Hxy. by apply Hin.
    + destruct Ha. rewrite <- Hxy. by apply Hin.
    + by apply IH.
Qed.

Lemma elem_of_element_keys k ts :
  k ∈ element_keys ts <->
  exists track el,
    track ∈ ts ∧ el ∈ track_elements track ∧ k = key_of track el.
Proof.
  unfold element_keys. rewrite list_elem_of_In, in_flat_map. split.
  - intros (track & Ht & Hk). apply in_map_iff in Hk as (el & <- & Hel).
    exists track, el. by rewrite !list_elem_of_In.
  - intros (track & el & Ht & Hel & ->). exists track.
    rewrite <- list_elem_of_In. split; [done|].
    apply in_map_iff. exists el. by rewrite <- list_elem_of_In.
Qed.

Lemma references_media el M :
  el_type el = "media" ∧ el_mediaId el = Some M <-> el_mediaId el = Some M.
Proof. destruct el; simpl; naive_solver. Qed.

Lemma elem_of_elementsToRemove k M ts :
  k ∈ elementsToRemove M ts <->
  exists track el,
    track ∈ ts ∧ el ∈ track_elements track ∧ el_mediaId el = Some M ∧
    k = key_of track el.
Proof.
  unfold elementsToRemove. rewrite list_elem_of_In, in_flat_map. split.
  - intros (track & Ht & Hk). apply in_map_iff in Hk as (el & <- & Hel).
    apply list_elem_of_In, list_elem_of_filter in Hel as [Href Hel].
    apply references_media in Href.
    exists track, el. by rewrite list_elem_of_In.
  - intros (track & el & Ht & Hel & Href & ->). exists track.
    rewrite <- list_elem_of_In. split; [done|].
    apply in_map_iff. exists el. split; [done|].
    apply list_elem_of_In, list_elem_of_filter.
    by rewrite references_media.
Qed.

(** With distinct names, a name refers to one element. *)
Lemma element_keys_inj ts track el track' el' :
  NoDup (element_keys ts) ->
  track ∈ ts -> el ∈ track_elements track ->
  track' ∈ ts -> el' ∈ track_elements track' ->
  key_of track el = key_of track' el' -> el = el'.
Proof.
  induction ts as [|t ts IH]; intros Hnd Ht Hel Ht' Hel' Hk.
  - by apply elem_of_nil in Ht.
  - change (element_keys (t :: ts))
      with (map (key_of t) (track_elements t) ++ element_keys ts) in Hnd.
    apply NoDup_app in Hnd as (Hhead & Hdisj & Htail).
    assert (Hin : forall e, e ∈ track_elements t ->
                            key_of t e ∈ map (key_of t) (track_elements t)).
    { intros e He. apply list_elem_of_In, in_map, list_elem_of_In, He. }
    apply elem_of_cons in Ht as [->|Ht]; apply elem_of_cons in Ht' as [->|Ht'].
    + by apply (elem_of_map_inj_on (key_of t) (track_elements t)).
    + destruct (Hdisj (key_of t el) (Hin el Hel)).
      rewrite Hk. apply elem_of_element_keys. by exists track', el'.
    + destruct (Hdisj (key_of t el') (Hin el' Hel')).
      rewrite <- Hk. apply elem_of_element_keys. by exists track, el.
    + by apply IH.
Qed.

(** The selection [removeMediaFile] makes is the list of the names of the
    elements that reference the media. *)
Lemma elementsToRemove_media_keys M ts :
  elementsToRemove M ts = media_keys M ts.
Proof.
  unfold elementsToRemove, media_keys. apply flat_map_ext. intros track.
  change (fun el => {| sel_trackId := track_id track;
                       sel_elementId := el_id el |}) with (key_of track).
  f_equal. apply filter_ext_elem_of. intros el _. apply references_media.
Qed.

Lemma elem_of_media_keys k M ts :
  k ∈ media_keys M ts <->
  exists track el,
    track ∈ ts ∧ el ∈ track_elements track ∧ el_mediaId el = Some M ∧
    k = key_of track el.
Proof.
  rewrite <- elementsToRemove_media_keys. apply elem_of_elementsToRemove.
Qed.

Lemma elem_of_other_keys k M ts :
  k ∈ other_keys M ts <->
  exists track el,
    track ∈ ts ∧ el ∈ track_elements track ∧ el_mediaId el ≠ Some M ∧
    k = key_of track el.
Proof.
  unfold other_keys. rewrite list_elem_of_In, in_flat_map. split.
  - intros (track & Ht & Hk). apply in_map_iff in Hk as (el & <- & Hel).
    apply list_elem_of_In, list_elem_of_filter in Hel as [Href Hel].
    exists track, el. by rewrite list_elem_of_In.
  - intros (track & el & Ht & Hel & Href & ->). exists track.
    rewrite <- list_elem_of_In. split; [done|].
    apply in_map_iff. exists el. split; [done|].
    by apply list_elem_of_In, list_elem_of_filter.
Qed.

(** Distinct names are enough for no name to be shared. *)
Lemma NoDup_no_shared_name M ts :
  NoDup (element_keys ts) -> no_shared_name M ts.
Proof.
  intros Hnd. apply Forall_forall.
  intros k (track & el & Ht & Hel & Href & ->)%elem_of_other_keys
           (track' & el' & Ht' & Hel' & Href' & Hk)%elem_of_media_keys.
  by rewrite (element_keys_inj ts track el track' el') in Href.
Qed.

Lemma deleteSelected_nothing (tl : TimelineStore) :
  tracks (deleteSelected (setSelectedElements [] tl)) = tracks tl.
Proof.
  unfold deleteSelected, setSelectedElements. simpl.
  rewrite <- (map_id (tracks tl)) at 2. apply map_ext. intros [i n els].
  simpl. f_equal. induction els as [|el els IH]; [done|].
  rewrite filter_cons, IH. destruct (decide _) as [|Hno]; [done|].
  destruct Hno. apply not_elem_of_nil.
Qed.



(** The tracks after the cascade: each keeps the elements whose name is
    not the name of an element that references the media. *)
Lemma cascade_tracks M (tl : TimelineStore) :
  tracks (cascade M tl)
    = map (fun track =>
             {| track_id := track_id track; track_name := track_name track;
                track_elements :=
                  filter (fun el => key_of track el ∉ media_keys M (tracks tl))
                         (track_elements track) |})
          (tracks tl).
Proof.
  unfold cascade.
  cbn [tl_tracks tl_setSelectedElements tl_deleteSelected TimelineStore_api].
  rewrite elementsToRemove_media_keys.
  destruct (0 <? length (media_keys M (tracks tl)))%nat eqn:Hlen; [done|].
  apply Nat.ltb_ge in Hlen.
  destruct (media_keys M (tracks tl)) eqn:Hsel; [|simpl in Hlen; lia].
  etransitivity; [symmetry; apply deleteSelected_nothing|done].
Qed.

Lemma cascade_removes_references M (tl : TimelineStore) :
  Forall (fun el => el_mediaId el ≠ Some M)
    (all_elements (tracks (cascade M tl))).
Proof.
  rewrite cascade_tracks. apply Forall_forall. intros el Hel.
  unfold all_elements in Hel.
  apply list_elem_of_In, in_flat_map in Hel as (track' & Ht' & Hel').
  apply in_map_iff in Ht' as (track & <- & Ht). simpl in Hel'.
  apply list_elem_of_In, list_elem_of_filter in Hel' as [Hno Hel].
  intros Href. apply Hno, elem_of_media_keys.
  exists track, el. by rewrite list_elem_of_In.
Qed.

Lemma cascade_without_media M (tl : TimelineStore) :
  no_shared_name M (tracks tl) <->
  tracks (cascade M tl) = map (without_media M) (tracks tl).
Proof.
  rewrite cascade_tracks. unfold no_shared_name. rewrite Forall_forall.
  split.
  - intros Hno. apply map_ext_in. intros track Ht.
    apply list_elem_of_In in Ht. unfold without_media. f_equal.
    apply filter_ext_elem_of. intros el Hel. split.
    + intros Hk Href. apply Hk, elem_of_media_keys. by exists track, el.
    + intros Href. apply Hno, elem_of_other_keys. by exists track, el.
  - intros Heq k (track & el & Ht & Hel & Href & ->)%elem_of_other_keys.
    apply list_elem_of_In in Ht.
    pose proof (proj1 map_ext_in_iff Heq track Ht) as Htrack.
    unfold without_media in Htrack. injection Htrack as Hfilter.
    assert (Hkept : el ∈ filter (fun el => el_mediaId el ≠ Some M)
                             (track_elements track))
      by by apply list_elem_of_filter.
    rewrite <- Hfilter in Hkept.
    by apply list_elem_of_filter in Hkept as [Hk _].
Qed.

Lemma cascade_events_media_keys id (tl : TimelineStore) :
  cascade_events id tl
    = match media_keys id (tracks tl) with
      | [] => []
      | selection => [EvSetSelectedElements selection; EvDeleteSelected]
      end.
Proof.
  unfold cascade_events. cbn [tl_tracks TimelineStore_api].
  rewrite elementsToRemove_media_keys.
  by destruct (media_keys id (tracks tl)).
Qed.


(** C5. [removeMediaFile] first removes the asset from [mediaFiles] and
    runs the cascade on the timeline: when these are done no element that
    references the media is left, the other elements are all in place
    (exactly when none shares its two ids with a referencing one), and no
    request has been sent. Only then is the DELETE request sent. However
    that request settles, [removeMediaFile] does not throw, and the media
    list and the timeline stay as the local steps left them; what follows
    the request in the trace is console output only. *)
Theorem removeMediaFile_local_then_remote projectId id
    (w : World Env TimelineStore) :
  let local := (removeMediaFile_local id w).2 in
  let r := removeMediaFile projectId id w in
  (mediaFiles local = filter (fun media => m_id media ≠ id) (mediaFiles w) ∧
   Forall (fun el => el_mediaId el ≠ Some id)
     (all_elements (tracks (timeline local))) ∧
   (no_shared_name id (tracks (timeline w)) <->
    tracks (timeline local) = map (without_media id) (tracks (timeline w))) ∧
   requests local = requests w) ∧
  r.1 = Ok tt ∧
  mediaFiles r.2 = mediaFiles local ∧
  timeline r.2 = timeline local ∧
  exists rest,
    trace r.2
      = trace w ++ [EvClearVideo id; EvSetMediaFiles]
          ++ match media_keys id (tracks (timeline w)) with
             | [] => []
             | selection =>
                 [EvSetSelectedElements selection; EvDeleteSelected]
             end
          ++ EvFetch (delete_media_request id) :: rest ∧
    Forall is_console_error rest.
Proof.
  intros local r.
  pose proof (removeMediaFile_steps projectId id w) as Hsteps.
  cbv zeta in Hsteps. fold local r in Hsteps.
  destruct Hsteps
    as ((Hmedia & Htimeline & Hrequests) & Hr & Hm & Ht & rest & Htrace
        & Hrest).
  rewrite cascade_events_media_keys in Htrace.
  split; [|by eauto 10].
  split; [done|]. rewrite Htimeline.
  split; [apply cascade_removes_references|].
  split; [apply cascade_without_media|done].
Qed.

End Cascade.

(** * The object key of an uploaded file *)

Lemma sanitized_unit c :
  let c' := if safe_unit c then c else 95 in
  (safe_unit c' = true ∨ c' = 95) ∧ c' ≠ 47 ∧
  (if safe_unit c' then c' else 95) = c'.
Proof.
  simpl. destruct (safe_unit c) eqn:Hc.
  - rewrite Hc. split; [by left|]. split; [|done].
    intros ->. done.
  - split; [by right|]. split; [lia|]. by vm_compute.
Qed.

Lemma sanitized_safe s :
  Forall (fun c => safe_unit c = true) s -> sanitized s = s.
Proof.
  unfold sanitized. induction 1 as [|c s Hc _ IH]; [done|].
  rewrite fmap_cons, Hc. by f_equal.
Qed.

(** X18. The file name in the key made by [generateMediaKey]: it has the
    length of the original, every code unit of it is a letter, a digit, a
    dot, a hyphen or an underscore, so it holds no [/]; the code units the
    pattern lets through stay where they are; and sanitising again changes
    nothing, so a sanitised name gives the same key. The key is seventeen
    code units longer than its three parts together. *)
Theorem generateMediaKey_filename_part projectId mediaId filename :
  let s := sanitized filename in
  length s = length filename ∧
  Forall (fun c => safe_unit c = true ∨ c = 95) s ∧
  (47 ∉ s) ∧
  (forall (i : nat) c,
     filename !! i = Some c -> safe_unit c = true -> s !! i = Some c) ∧
  sanitized s = s ∧
  generateMediaKey projectId mediaId s
    = generateMediaKey projectId mediaId filename ∧
  length (generateMediaKey projectId mediaId filename)
    = (length projectId + length mediaId + length filename + 17)%nat.
Proof.
  intros s. subst s.
  assert (Hidem : sanitized (sanitized filename) = sanitized filename).
  { unfold sanitized. rewrite <- list_fmap_compose.
    apply list_fmap_ext. intros i c _. simpl.
    apply (sanitized_unit c). }
  split; [apply length_fmap|]. split.
  { unfold sanitized. apply Forall_fmap, Forall_forall. intros c _.
    apply (sanitized_unit c). }
  split.
  { unfold sanitized. intros (c & Hc & _)%list_elem_of_fmap.
    by destruct (sanitized_unit c) as (_ & Hne & _). }
  split.
  { intros i c Hi Hc. unfold sanitized.
    by rewrite list_lookup_fmap, Hi; simpl; rewrite Hc. }
  split; [done|]. split.
  { unfold generateMediaKey. by rewrite Hidem. }
  unfold generateMediaKey. rewrite !length_app.
  unfold sanitized. rewrite length_fmap. simpl. lia.
Qed.

(** X19. Keys can coincide. Two file names that differ in one code unit
    the pattern replaces get the same key under the same ids; and since
    the ids are put in as they are, a hyphen can be read as the end of the
    media id or as part of the file name. *)
Theorem generateMediaKey_collisions projectId mediaId :
  (forall pre post c c',
     safe_unit c = false -> safe_unit c' = false ->
     generateMediaKey projectId mediaId (pre ++ c :: post)
       = generateMediaKey projectId mediaId (pre ++ c' :: post)) ∧
  (forall s filename,
     Forall (fun c => safe_unit c = true) s ->
     generateMediaKey projectId (mediaId ++ code_units "-" ++ s) filename
       = generateMediaKey projectId mediaId
           (s ++ code_units "-" ++ filename)).
Proof.
  split.
  - intros pre post c c' Hc Hc'. unfold generateMediaKey, sanitized.
    by rewrite !fmap_app, !fmap_cons, Hc, Hc'.
  - intros s filename Hs. unfold generateMediaKey.
    change (sanitized (s ++ code_units "-" ++ filename))
      with ((fun c => if safe_unit c then c else 95)
              <$> (s ++ code_units "-" ++ filename)).
    rewrite !fmap_app.
    change ((fun c => if safe_unit c then c else 95) <$> s)
      with (sanitized s).
    change ((fun c => if safe_unit c then c else 95) <$> filename)
      with (sanitized filename).
    rewrite (sanitized_safe s Hs). simpl.
    by rewrite <- !app_assoc.
Qed.

(** * The scenarios *)

#[global] Existing Instance iso_codec.

(** ** The ISO strings of some dates *)

Example iso_epoch : iso_string 0 = "1970-01-01T00:00:00.000Z".
Proof. reflexivity. Qed.

Example iso_2023 : iso_string 1700000000123 = "2023-11-14T22:13:20.123Z".
Proof. reflexivity. Qed.

Example iso_leap : iso_string 1709210096789 = "2024-02-29T12:34:56.789Z".
Proof. reflexivity. Qed.

Example parse_2023 :
  parse_iso "2023-11-14T22:13:20.123Z" = ValidDate 1700000000123.
Proof. reflexivity. Qed.

Example parse_leap :
  parse_iso (iso_string 1709210096789) = ValidDate 1709210096789.
Proof. reflexivity. Qed.

Example parse_bad : parse_iso "yesterday" = InvalidDate.
Proof. reflexivity. Qed.

Example iso_last : iso_string max_time = "+275760-09-13T00:00:00.000Z".
Proof. reflexivity. Qed.

Example iso_first : iso_string (- max_time) = "-271821-04-20T00:00:00.000Z".
Proof. reflexivity. Qed.

Example parse_last :
  parse_iso (iso_string max_time) = ValidDate max_time ∧
  parse_iso (iso_string (- max_time)) = ValidDate (- max_time) ∧
  parse_iso "+275760-09-13T00:00:00.001Z" = InvalidDate.
Proof. by vm_compute. Qed.

Example parse_out_of_range :
  parse_iso "2023-13-14T22:13:20.123Z" = InvalidDate ∧
  parse_iso "2023-11-99T22:13:20.123Z" = InvalidDate ∧
  parse_iso "2023-11-14T22:60:20.123Z" = InvalidDate.
Proof. by vm_compute. Qed.

(** ** The cache adapter *)

Lemma cache_freshness_witness :
  cache_get timelinesCache "s1" (at_time 60000 written_world)
    = (Ok (Some [track1]), at_time 60000 written_world) ∧
  (cache_get timelinesCache "s1" (at_time 61000 written_world)).1
    = Ok None ∧
  db TimelinesStore
     (cache_get timelinesCache "s1" (at_time 61000 written_world)).2
    = ∅.
Proof.
  split; [|split].
  - apply (cache_freshness timelinesCache "s1" [track1] 1
             empty_world (at_time 60000 written_world));
      [reflexivity|reflexivity|reflexivity|].
    vm_compute. discriminate.
  - apply (cache_freshness timelinesCache "s1" [track1] 1
             empty_world (at_time 61000 written_world));
      [reflexivity|reflexivity|reflexivity|reflexivity].
  - by vm_compute.
Defined.

Lemma getRemainingTTL_keeps_stale_entry :
  cache_getRemainingTTL timelinesCache "s1" stale_world
    = (Ok (-1), stale_world) ∧
  db TimelinesStore stale_world !! "s1"
    = Some {| data := [track1]; timestamp := 0; version := 1 |} ∧
  Date_now (env stale_world) - 0 > ttl timelinesCache.
Proof. by vm_compute. Qed.

Lemma stale_introspection_witness :
  (cache_getWithMetadata timelinesCache "s1" stale_world).1 = Ok None ∧
  db TimelinesStore
     (cache_getWithMetadata timelinesCache "s1" stale_world).2 !! "s1"
    = None ∧
  db TimelinesStore
     (cache_getRemainingTTL timelinesCache "s1" stale_world).2 !! "s1"
    = Some {| data := [track1]; timestamp := 0; version := 1 |}.
Proof.
  pose proof (stale_introspection timelinesCache "s1"
                {| data := [track1]; timestamp := 0; version := 1 |}
                stale_world) as H.
  destruct H as (H1 & _ & H3 & _ & H5); [reflexivity|reflexivity|reflexivity|].
  exact (conj H1 (conj H3 H5)).
Defined.

(** ** Cache-aside reads *)

Lemma empty_result_not_cached_witness :
  (loadAllMediaFiles "p1" empty_media_world).1 = Ok [] ∧
  db_media (loadAllMediaFiles "p1" empty_media_world).2 !! "p1" = None ∧
  (loadTimeline "s1" empty_timeline_world).1 = Ok (Some []) ∧
  db_timelines (loadTimeline "s1" empty_timeline_world).2 !! "s1" = None.
Proof.
  destruct (empty_result_not_cached (Env := Script)
              (Timeline := TimelineStore)) as [Hmedia Htimeline].
  destruct (Hmedia "p1" empty_media_world _ _ _
              eq_refl eq_refl eq_refl eq_refl) as (Hempty & _).
  destruct (Hempty eq_refl) as (Hr & _ & Hno & _).
  destruct (Htimeline "s1" empty_timeline_world _ _ eq_refl eq_refl)
    as (_ & Hsucc).
  destruct (Hsucc eq_refl _ eq_refl) as (Hempty2 & _).
  destruct (Hempty2 eq_refl) as (Hr2 & _ & Hno2 & _).
  exact (conj Hr (conj (Hno eq_refl) (conj Hr2 (Hno2 eq_refl)))).
Defined.

Lemma loadTimeline_null_only_on_404_witness :
  (loadTimeline "s1" no_timeline_world).1 = Ok None ∧
  (loadTimeline "s1" empty_timeline_world).1 = Ok (Some []).
Proof.
  destruct (loadTimeline_null_only_on_404 (Env := Script)
              (Timeline := TimelineStore)) as [Hnull Hempty].
  split.
  - apply Hnull. split; [reflexivity|]. by eexists _, _.
  - by apply (Hempty "s1" empty_timeline_world _ _ _
                eq_refl eq_refl eq_refl eq_refl eq_refl).
Defined.

(** ** Deletes *)

Lemma delete_tolerates_absence_witness :
  (remote_remove projectsAdapter "p1" delete_twice_world).1 = Ok tt ∧
  (remote_remove projectsAdapter "p1"
     (remote_remove projectsAdapter "p1" delete_twice_world).2).1 = Ok tt ∧
  (deleteMediaFile "p1" "m1"
     (deleteMediaFile "p1" "m1" delete_twice_world).2).1 = Ok tt.
Proof.
  destruct (delete_tolerates_absence (Env := Script)
              (Timeline := TimelineStore)) as [Hproject Hmedia].
  destruct (Hproject projectsAdapter "p1" delete_twice_world _ _ eq_refl)
    as (H1 & _ & H2).
  destruct (Hmedia "p1" "m1" delete_twice_world _ _ eq_refl) as (_ & _ & H3).
  split; [|split].
  - apply H1. by left.
  - apply (H2 _ _ eq_refl); [by left|by right].
  - apply (H3 _ _ eq_refl); [by left|by right].
Defined.

(** The responses arrive in the order the requests were sent: both
    deletions throw, the caller sees what the first threw, and the cached
    media list is still there. *)
Lemma deleteProjectMedia_first_error_cache_kept :
  loadAllMediaFiles "p1" failing_world
    = (Ok (map media_file_of [media1; media2]), failing_world) ∧
  (deleteMediaFile_all [0%nat; 1%nat] "p1"
     (map media_file_of [media1; media2]) failing_world).1
    = Ok [Throw (MkError "Failed to delete media: Internal Server Error");
          Throw (MkError "Failed to delete media: Service Unavailable")] ∧
  (deleteProjectMedia [0%nat; 1%nat] "p1" failing_world).1
    = Throw (MkError "Failed to delete media: Internal Server Error") ∧
  db_media (deleteProjectMedia [0%nat; 1%nat] "p1" failing_world).2 !! "p1"
    = Some {| data := [media1; media2]; timestamp := 0; version := 1 |}.
Proof. by vm_compute. Qed.

(** The responses arrive in the other order. *)
Lemma deleteProjectMedia_fan_out_witness :
  requests (deleteProjectMedia [1%nat; 0%nat] "p1" failing_world).2
    = [delete_media_request "m1"; delete_media_request "m2"] ∧
  (deleteProjectMedia [1%nat; 0%nat] "p1" failing_world).1
    = Throw (MkError "Failed to delete media: Service Unavailable") ∧
  db_media (deleteProjectMedia [1%nat; 0%nat] "p1" failing_world).2
    = db_media failing_world.
Proof.
  assert (Hload : loadAllMediaFiles "p1" failing_world
                  = (Ok (map media_file_of [media1; media2]), failing_world))
    by (vm_compute; reflexivity).
  destruct (deleteProjectMedia_fan_out [1%nat; 0%nat] "p1" failing_world
              failing_world (map media_file_of [media1; media2]) Hload)
    as (Hreq & Hr & Hkept & _).
  split; [exact Hreq|]. split; [exact Hr|].
  apply Hkept; [|by eexists].
  repeat constructor; by eexists.
Defined.

(** ** The in-memory project server returns what was stored *)

Lemma strip_prefix_app p s : strip_prefix p (p +:+ s) = Some s.
Proof.
  induction p as [|a p IH]; [done|]. simpl. by rewrite decide_True.
Qed.

Lemma project_url id :
  baseUrl projectsAdapter +:+ "/" +:+ id = "/api/projects/" +:+ id.
Proof. reflexivity. Qed.

Lemma server_get id (e : ProjectServer) :
  server_fetch (get_request projectsAdapter id) e =
    match server_projects e !! id with
    | Some value => (json_response 200 "OK" (Some value), e)
    | None => (json_response 404 "Not Found" None, e)
    end.
Proof.
  unfold server_fetch, get_request. cbn [req_method req_body req_url].
  by rewrite project_url, strip_prefix_app.
Qed.

Lemma server_put id value (e : ProjectServer) :
  server_fetch (put_request projectsAdapter id value) e =
    match server_projects e !! id with
    | Some _ =>
        (json_response 200 "OK" (Some value),
         {| server_now := server_now e;
            server_projects := <[id := value]> (server_projects e) |})
    | None => (json_response 404 "Not Found" None, e)
    end.
Proof.
  unfold server_fetch, put_request. cbn [req_method req_body req_url].
  by rewrite project_url, strip_prefix_app.
Qed.

Lemma server_post value (e : ProjectServer) :
  server_fetch (post_request projectsAdapter value) e =
    (json_response 200 "OK" (Some value),
     {| server_now := server_now e;
        server_projects := <[sp_id value := value]> (server_projects e) |}).
Proof. reflexivity. Qed.

Ltac server_step :=
  cbn -[server_fetch get_request put_request post_request bool_decide];
  rewrite ?(bool_decide_false (200 = 404)), ?(bool_decide_true (404 = 404))
    by done;
  cbn -[server_fetch get_request put_request post_request bool_decide].

Lemma server_returns_stored :
  adapter_returns_stored ProjectServer TimelineStore.
Proof.
  intros w w1 value.
  unfold remote_set, remote_get, try_catch, fetch, await_response,
    response_json, console_error, emit, modify, throw, mbind, M_bind, mret,
    M_ret.
  change (fetch_env (Env := ProjectServer)) with server_fetch.
  rewrite server_get.
  destruct (server_projects (env w) !! sp_id value) as [old|] eqn:Hold;
    server_step.
  - rewrite server_put, Hold. server_step.
    intros Hset. simplify_eq.
    rewrite server_get. server_step. rewrite lookup_insert_eq. server_step.
    by eexists.
  - rewrite server_post. server_step.
    intros Hset. simplify_eq.
    rewrite server_get. server_step. rewrite lookup_insert_eq. server_step.
    by eexists.
Qed.

Lemma save_load_round_trip_witness :
  exists w2,
    loadProject "p1" (saveProject project1 server_world).2
      = (Ok (Some project1), w2).
Proof.
  apply (save_load_round_trip project1 server_world).
  - apply server_returns_stored.
  - repeat constructor.
  - reflexivity.
Defined.

(** ** The cascade *)



(** The remote rejects the deletion: the asset and the two elements that
    reference it stay removed. *)
Lemma removeMediaFile_local_then_remote_witness :
  (removeMediaFile "p1" "m1" mixed_world).1 = Ok tt ∧
  mediaFiles (removeMediaFile "p1" "m1" mixed_world).2
    = [media_file_of media2] ∧
  all_elements (tracks (timeline (removeMediaFile "p1" "m1" mixed_world).2))
    = [MediaElement "e2" "m2" base1; TextElement "e3" "Title" base1] ∧
  last (trace (removeMediaFile "p1" "m1" mixed_world).2)
    = Some (EvConsoleError "Failed to delete media item:").
Proof.
  destruct (removeMediaFile_local_then_remote "p1" "m1" mixed_world)
    as ((Hmedia & _ & Hkept & _) & Hr & Hm & Ht & _).
  split; [exact Hr|]. split; [by rewrite Hm, Hmedia|].
  split; [|by vm_compute].
  rewrite Ht, (proj1 Hkept); [done|]. by apply (bool_decide_unpack _).
Defined.

(** ** Reads served by the cache, and writes that fill it *)

Lemma fresh_entry_served_locally_witness :
  loadAllMediaFiles "p1" cached_world
    = (Ok [media_file_of media1], cached_world) ∧
  loadTimeline "s1" cached_world = (Ok (Some [track1]), cached_world).
Proof.
  split.
  - apply (proj1 (fresh_entry_served_locally "p1" cached_world eq_refl)
             {| data := [media1]; timestamp := 0; version := 1 |});
      [reflexivity|]. vm_compute. discriminate.
  - apply (proj2 (fresh_entry_served_locally "s1" cached_world eq_refl)
             {| data := [track1]; timestamp := 0; version := 1 |});
      [reflexivity|]. vm_compute. discriminate.
Defined.

Lemma saveTimeline_then_loadTimeline_witness :
  (saveTimeline "s1" [track1] accepting_world).1 = Ok tt ∧
  loadTimeline "s1"
    (at_time 60010 (saveTimeline "s1" [track1] accepting_world).2)
    = (Ok (Some [track1]),
       at_time 60010 (saveTimeline "s1" [track1] accepting_world).2).
Proof.
  edestruct (saveTimeline_then_loadTimeline "s1" [track1] accepting_world)
    as (Hsaved & _ & Hload);
    [reflexivity|vm_compute; reflexivity|reflexivity|].
  split; [exact Hsaved|].
  apply Hload; [reflexivity|reflexivity|]. vm_compute. discriminate.
Defined.

(** ** The cache adapter on a failing store *)

Lemma cache_on_failing_store_witness :
  (cache_get timelinesCache "s1" broken_store_world).1 = Ok None ∧
  (cache_has timelinesCache "s1" broken_store_world).1 = Ok false ∧
  (cache_set timelinesCache "s1" [] 1 broken_store_world).1
    = Throw idb_error.
Proof.
  destruct (cache_on_failing_store timelinesCache "s1" [] 1 []
              broken_store_world eq_refl)
    as (Hget & _ & Hhas & _ & _ & Hset & _).
  by repeat split.
Defined.

Lemma cache_get_failed_eviction_witness :
  (cache_get timelinesCache "s1" broken_eviction_world).1 = Ok None ∧
  db TimelinesStore (cache_get timelinesCache "s1" broken_eviction_world).2
    = db TimelinesStore broken_eviction_world.
Proof.
  apply (cache_get_failed_eviction timelinesCache "s1"
           {| data := [track1]; timestamp := 0; version := 1 |} []
           broken_eviction_world); reflexivity.
Defined.

Lemma cache_other_keys_untouched_witness :
  Forall (fun w' => db TimelinesStore w' !! "s1"
                    = Some {| data := [track1]; timestamp := 0;
                              version := 1 |})
    [(cache_get timelinesCache "s2" cached_world).2;
     (cache_getWithMetadata timelinesCache "s2" cached_world).2;
     (cache_has timelinesCache "s2" cached_world).2;
     (cache_getRemainingTTL timelinesCache "s2" cached_world).2;
     (cache_set timelinesCache "s2" [] 1 cached_world).2;
     (cache_invalidate timelinesCache "s2" cached_world).2].
Proof.
  apply (cache_other_keys_untouched timelinesCache "s2" "s1" [] 1
           cached_world).
  discriminate.
Defined.

Lemma getRemainingTTL_values_witness :
  cache_getRemainingTTL timelinesCache "s1" (at_time 60000 cached_world)
    = (Ok (-1), at_time 60000 cached_world) ∧
  cache_get timelinesCache "s1" (at_time 60000 cached_world)
    = (Ok (Some [track1]), at_time 60000 cached_world).
Proof.
  destruct (getRemainingTTL_values timelinesCache "s1"
              (at_time 60000 cached_world) eq_refl) as [_ Hentry].
  destruct (Hentry {| data := [track1]; timestamp := 0; version := 1 |}
              eq_refl) as [_ Hboundary].
  apply Hboundary. reflexivity.
Defined.

(** ** Deleting a media file and the cache *)

Lemma deleteMediaFile_cache_witness :
  db_media (deleteMediaFile "p1" "m1" cached_delete_world).2
    = delete "p1" (db_media cached_delete_world) ∧
  requests
    (loadAllMediaFiles "p1"
       (deleteMediaFile "p1" "m1" cached_delete_world).2).2
    = requests (deleteMediaFile "p1" "m1" cached_delete_world).2
        ++ [list_media_request "p1"].
Proof.
  exact (proj2 (deleteMediaFile_cache "p1" "m1" cached_delete_world eq_refl)).
Defined.

(** ** Projects *)

Lemma saveProject_invalid_date_witness :
  saveProject undated_project server_world = (Throw range_error, server_world).
Proof.
  apply (saveProject_invalid_date undated_project server_world).
  apply list_elem_of_further, list_elem_of_here.
Defined.


(** ** More scenarios of the cache-aside reads and writes *)

Lemma refill_then_hit_witness :
  loadAllMediaFiles "p1"
    (at_time 300010 (loadAllMediaFiles "p1" listing_world).2)
    = (Ok [media_file_of media1],
       at_time 300010 (loadAllMediaFiles "p1" listing_world).2) ∧
  loadTimeline "s1" (at_time 60010 (loadTimeline "s1" listing_world).2)
    = (Ok (Some [track1]),
       at_time 60010 (loadTimeline "s1" listing_world).2).
Proof.
  destruct (refill_then_hit (Env := Script) (Timeline := TimelineStore))
    as [Hmedia Htimeline].
  split.
  - edestruct (Hmedia "p1" listing_world
                 (at_time 300010 (loadAllMediaFiles "p1" listing_world).2))
      as [Hhit _];
      [reflexivity|reflexivity|vm_compute; reflexivity|reflexivity
      |reflexivity|discriminate|reflexivity|reflexivity
      |vm_compute; discriminate|exact Hhit].
  - edestruct (Htimeline "s1" listing_world
                 (at_time 60010 (loadTimeline "s1" listing_world).2))
      as [Hhit _];
      [reflexivity|reflexivity|vm_compute; reflexivity|reflexivity
      |reflexivity|discriminate|reflexivity|reflexivity
      |vm_compute; discriminate|exact Hhit].
Defined.

Lemma saveTimeline_remote_failure_witness :
  (saveTimeline "s1" [track1] failing_world).1
    = Throw (MkError "Failed to save timeline: Internal Server Error") ∧
  db_media (saveTimeline "s1" [track1] failing_world).2
    = db_media failing_world.
Proof.
  destruct (saveTimeline_remote_failure "s1" [track1] failing_world)
    as [_ Hfailure].
  destruct (Hfailure
              (MkError "Failed to save timeline: Internal Server Error")
              eq_refl) as (Hthrown & _ & Hmedia).
  by split.
Defined.

Lemma cache_write_failure_surfaces_witness :
  (saveTimeline "s1" [track1] broken_write_world).1 = Throw idb_error.
Proof.
  destruct (cache_write_failure_surfaces (Env := Script)
              (Timeline := TimelineStore)) as [Hsave _].
  eapply (Hsave "s1" [track1] broken_write_world);
    [reflexivity|vm_compute; reflexivity|reflexivity].
Defined.

Lemma deleteProjectTimeline_is_local_witness :
  (deleteProjectTimeline "s1" cached_world).1 = Ok tt ∧
  requests (deleteProjectTimeline "s1" cached_world).2 = [] ∧
  db_timelines (deleteProjectTimeline "s1" cached_world).2 !! "s1" = None.
Proof.
  destruct (deleteProjectTimeline_is_local "s1" cached_world)
    as (Hreturns & Hrequests & _ & _ & _ & Hgone).
  split; [exact Hreturns|]. split; [exact Hrequests|].
  apply Hgone. reflexivity.
Defined.

(** ** The remote adapter without a network *)

Lemma adapter_failures_logged_witness :
  (remote_set projectsAdapter "p1"
     {| sp_id := "p1"; sp_name := "Holiday"; sp_thumbnail := "";
        sp_createdAt := "2023-11-14T22:13:20.123Z";
        sp_updatedAt := "2023-11-14T22:13:20.123Z";
        sp_scenes := None; sp_currentSceneId := None;
        sp_backgroundColor := None; sp_backgroundType := None;
        sp_blurIntensity := None; sp_bookmarks := None; sp_fps := None;
        sp_canvasSize := {| canvas_width := 1920; canvas_height := 1080 |};
        sp_canvasMode := "preset" |} empty_world).1
    = Throw (MkError "TypeError: Failed to fetch").
Proof.
  edestruct (adapter_failures_logged (Env := Script)
               (Timeline := TimelineStore) projectsAdapter "p1")
    as (_ & _ & _ & Hset).
  apply Hset. reflexivity.
Defined.

(** ** Object keys *)

Lemma generateMediaKey_collisions_witness :
  generateMediaKey (code_units "p1") (code_units "m1")
    (code_units "a b.mp4")
  = generateMediaKey (code_units "p1") (code_units "m1")
      (code_units "a/b.mp4") ∧
  generateMediaKey (code_units "p1") (code_units "m1-x") (code_units "y.mp4")
  = generateMediaKey (code_units "p1") (code_units "m1")
      (code_units "x-y.mp4").
Proof.
  destruct (generateMediaKey_collisions (code_units "p1") (code_units "m1"))
    as [Hunit _].
  destruct (generateMediaKey_collisions (code_units "p1") (code_units "m1"))
    as [_ Hhyphen].
  split.
  - apply (Hunit (code_units "a") (code_units "b.mp4") 32 47);
      reflexivity.
  - apply (Hhyphen (code_units "x") (code_units "y.mp4")).
    by repeat constructor.
Defined.
